(** * NVTabular workflow: task graph, phase assembly and reordering

    A shallow embedding of [nvtabular/workflow.py] (classes [BaseWorkflow]
    and [Workflow]) together with the properties of its phase scheduler.

    Python objects are modelled as follows.
    - An operator instance is a value of [Operator]; the field [obj] stands
      for the identity of the Python object, so that Python's default [==]
      on operators (identity) is Leibniz equality here.
    - A task is the 4-tuple [(operator, main_columns_class, col_sub_key,
      required_operators)] of the source.
    - Dictionaries are association lists in insertion order, since the
      source iterates over [config.keys()], [task_list.items()] and
      [columns_ctx[...].values()].
    - A call that can raise returns a [result]; the exception is named.
    - A loop that removes from the list it iterates over is modelled with
      the index of the Python list iterator written out. *)

From Stdlib Require Import List String Ascii Bool Arith ZArith Lia Permutation.
Import ListNotations.
Open Scope string_scope.
Open Scope list_scope.

Set Implicit Arguments.

(* ================================================================== *)
(** ** Exceptions *)

Inductive exn : Type :=
| ValueError
| KeyError
| IndexError
| AttributeError
| TypeError.

Inductive result (A : Type) : Type :=
| OK (a : A)
| Raise (e : exn).

Arguments OK {A} a.
Arguments Raise {A} e.

Definition bind {A B : Type} (r : result A) (f : A -> result B) : result B :=
  match r with
  | OK a => f a
  | Raise e => Raise e
  end.

Notation "x <- r ;; k" := (bind r (fun x => k))
  (at level 61, r at next level, right associativity).

(* ================================================================== *)
(** ** Python lists and strings *)

Section PyList.
Variable A : Type.
Variable A_eq_dec : forall x y : A, {x = y} + {x <> y}.

(** [x in l] *)
Definition py_in (x : A) (l : list A) : bool :=
  if in_dec A_eq_dec x l then true else false.

(** The list left by [l.remove(x)] when [x] occurs in [l]: the first
    element equal to [x] is deleted. *)
Fixpoint remove_first (x : A) (l : list A) : list A :=
  match l with
  | [] => []
  | y :: l' => if A_eq_dec x y then l' else y :: remove_first x l'
  end.

(** [l.remove(x)], which raises [ValueError] when [x] is not in [l]. *)
Definition list_remove (x : A) (l : list A) : result (list A) :=
  if in_dec A_eq_dec x l then OK (remove_first x l) else Raise ValueError.

(** [not l] *)
Definition is_empty (l : list A) : bool :=
  match l with [] => true | _ => false end.

End PyList.

(** [a in b] on Python strings: [a] occurs in [b] as a contiguous
    substring. *)
Fixpoint str_in (a b : string) : bool :=
  if prefix a b then true
  else match b with
       | EmptyString => false
       | String _ b' => str_in a b'
       end.

(* ================================================================== *)
(** ** Dictionaries in insertion order *)

Definition dict (V : Type) : Type := list (string * V).

Section Dict.
Variable V : Type.

(** [d.get(k)] *)
Fixpoint lookup (k : string) (d : dict V) : option V :=
  match d with
  | [] => None
  | (k', v) :: d' => if String.eqb k k' then Some v else lookup k d'
  end.

(** [d[k]] *)
Definition getitem (k : string) (d : dict V) : result V :=
  match lookup k d with
  | Some v => OK v
  | None => Raise KeyError
  end.

(** [k in d] *)
Definition has_key (k : string) (d : dict V) : bool :=
  match lookup k d with Some _ => true | None => false end.

(** [d[k] = v]: an existing key keeps its position, a new key goes last. *)
Fixpoint setitem (k : string) (v : V) (d : dict V) : dict V :=
  match d with
  | [] => [(k, v)]
  | (k', v') :: d' =>
      if String.eqb k k' then (k, v) :: d' else (k', v') :: setitem k v d'
  end.

Definition keys (d : dict V) : list string := map fst d.
Definition values (d : dict V) : list V := map snd d.

End Dict.

(* ================================================================== *)
(** ** Operators and tasks *)

(** The class of an operator, as the tests of the source see it.
    [StatOperator] stands for a class that derives from [StatOperator]
    directly ([op.__class__.__base__] is [StatOperator]), and
    [DerivedStatOperator] for the other instances of [StatOperator]: a class
    that derives from it through another class.  [DFOperator] is a subclass
    of [TransformOperator]; [OtherOperator] is an operator that derives from
    neither [TransformOperator] nor [StatOperator]. *)
Inductive OpKind : Type :=
| StatOperator
| DerivedStatOperator
| TransformOperator
| DFOperator
| OtherOperator.

#[local] Set Warnings "-register-all".

(** Modelled from the spec: the operator classes of [nvtabular/ops.py],
    which [workflow.py] imports.  Per the operator contract an operator
    exposes an identifier [_id], a default target column group
    ([get_default_in()], [None] when it has none) and, for a stat-dependent
    transform, the list [req_stats] of the statistic operators it needs.
    [req_stats = None] means the attribute is absent
    ([hasattr(op, "req_stats")] is false).  [obj] is the identity of the
    Python object: two operators are the same object when all fields,
    [obj] included, agree. *)
Inductive Operator : Type :=
| mkOperator (obj : nat) (_id : string) (kind : OpKind)
             (default_in : option string)
             (req_stats : option (list Operator)).

Definition obj (op : Operator) : nat :=
  match op with mkOperator o _ _ _ _ => o end.
Definition _id (op : Operator) : string :=
  match op with mkOperator _ i _ _ _ => i end.
Definition kind (op : Operator) : OpKind :=
  match op with mkOperator _ _ k _ _ => k end.
Definition get_default_in (op : Operator) : option string :=
  match op with mkOperator _ _ _ d _ => d end.
Definition req_stats (op : Operator) : option (list Operator) :=
  match op with mkOperator _ _ _ _ r => r end.

Definition option_eq_dec {A : Type}
  (A_eq_dec : forall x y : A, {x = y} + {x <> y}) (a b : option A) :
  {a = b} + {a <> b}.
Proof. decide equality. Defined.

Definition OpKind_eq_dec (a b : OpKind) : {a = b} + {a <> b}.
Proof. decide equality. Defined.

Fixpoint Operator_eq_dec (a b : Operator) {struct a} : {a = b} + {a <> b}.
Proof.
  decide equality.
  - apply (option_eq_dec (list_eq_dec Operator_eq_dec)).
  - apply (option_eq_dec string_dec).
  - apply OpKind_eq_dec.
  - apply string_dec.
  - apply Nat.eq_dec.
Defined.

(** [isinstance(op, StatOperator)] *)
Definition is_stat (op : Operator) : bool :=
  match kind op with
  | StatOperator | DerivedStatOperator => true
  | _ => false
  end.

(** [op.__class__.__base__ == StatOperator] *)
Definition base_is_stat (op : Operator) : bool :=
  match kind op with StatOperator => true | _ => false end.

(** [isinstance(op, DFOperator)] *)
Definition is_df (op : Operator) : bool :=
  match kind op with DFOperator => true | _ => false end.

(** [isinstance(op, TransformOperator)] *)
Definition is_transform (op : Operator) : bool :=
  match kind op with TransformOperator | DFOperator => true | _ => false end.

(** A task: [(operator, main_columns_class, col_sub_key,
    required_operators)]; the source reads the components as [task[0]] to
    [task[3]]. *)
Record Task : Type := mkTask {
  task_op : Operator;
  task_cols : string;
  task_deps : list string;
  task_parents : list Operator
}.

Definition Task_eq_dec (a b : Task) : {a = b} + {a <> b}.
Proof.
  decide equality.
  - apply (list_eq_dec Operator_eq_dec).
  - apply (list_eq_dec string_dec).
  - apply string_dec.
  - apply Operator_eq_dec.
Defined.

Definition Phase : Type := list Task.

Definition base : string := "base".

(* ================================================================== *)
(** ** Task graph builder *)

(** An entry of a column group's operator list: a single operator, or a
    chain (a Python sequence) of operators. *)
Inductive ConfigEntry : Type :=
| Single (op : Operator)
| Chain (ops : list Operator).

(** The operator-list configuration: stage ("FE", "PP") to column group to
    entries. *)
Definition Config : Type := dict (dict (list ConfigEntry)).

(** The dependency dictionary: stage to column group to
    [(operator, dep_grp)] pairs. *)
Definition DepConfig : Type := dict (dict (list (Operator * list string))).

(** [get_new_config()] *)
Definition get_new_config : Config :=
  [ ("FE", [("all", []); ("continuous", []); ("categorical", [])]);
    ("PP", [("all", []); ("continuous", []); ("categorical", [])]) ].

(** The inner loop of [_compile_dict_from_list]:
    [for idx, op in enumerate(obj):
       tasks.append((op, [obj[idx - 1]._id] if idx > 0 else []))];
    [prev] is [obj[idx - 1]] when [idx > 0]. *)
Fixpoint compile_chain (prev : option Operator) (obj : list Operator)
  : list (Operator * list string) :=
  match obj with
  | [] => []
  | op :: rest =>
      (op, match prev with Some p => [_id p] | None => [] end)
        :: compile_chain (Some op) rest
  end.

Definition compile_entry (obj : ConfigEntry) : list (Operator * list string) :=
  match obj with
  | Single op => compile_chain None [op]
  | Chain ops => compile_chain None ops
  end.

(** [_compile_dict_from_list]; the keys of a Python dictionary are
    distinct, so rebuilding it key by key is a map over its items. *)
Definition _compile_dict_from_list (config : Config) : DepConfig :=
  map (fun '(phase, task_list) =>
         (phase,
          map (fun '(k, v) => (k, flat_map compile_entry v)) task_list))
      config.

(** [_is_repeat_op]: the test [op._id in task_d[0]._id] is on two strings. *)
Fixpoint _is_repeat_op (op : Operator) (cols : string)
  (master_task_list : list Task) : bool :=
  match master_task_list with
  | [] => false
  | task_d :: rest =>
      if str_in (_id op) (_id (task_op task_d))
         && String.eqb cols (task_cols task_d)
      then true
      else _is_repeat_op op cols rest
  end.

(** [dep_grp if dep_grp else ["base"]] *)
Definition or_base (dep_grp : list string) : list string :=
  if is_empty dep_grp then [base] else dep_grp.

(** The loop [for opo in target_op.req_stats] of [_build_tasks]; it
    rebinds [dep_grp] and appends to [dep_tasks]. *)
Fixpoint build_req_stats (reqs : list Operator) (cols : string)
  (master_task_list : list Task) (dep_grp : list string)
  (dep_tasks : list Task) : list string * list Task :=
  match reqs with
  | [] => (dep_grp, dep_tasks)
  | opo :: rest =>
      if negb (_is_repeat_op opo cols master_task_list) then
        let dep_grp := or_base dep_grp in
        build_req_stats rest cols master_task_list dep_grp
          (dep_tasks ++ [mkTask opo cols dep_grp []])
      else build_req_stats rest cols master_task_list dep_grp dep_tasks
  end.

(** One iteration of [for target_op, dep_grp in task_list]. *)
Definition build_target (cols : string) (master_task_list : list Task)
  (dep_tasks : list Task) (entry : Operator * list string)
  : result (list Task) :=
  let '(target_op, dep_grp) := entry in
  st <- (if is_df target_op then
           match req_stats target_op with
           | Some reqs =>
               OK (build_req_stats reqs cols master_task_list dep_grp dep_tasks)
           | None => Raise AttributeError
           end
         else OK (dep_grp, dep_tasks)) ;;
  let '(dep_grp, dep_tasks) := st in
  let dep_grp := or_base dep_grp in
  let parents :=
    match req_stats target_op with None => [] | Some reqs => reqs end in
  if negb (_is_repeat_op target_op cols master_task_list)
  then OK (dep_tasks ++ [mkTask target_op cols dep_grp parents])
  else OK dep_tasks.

Fixpoint build_task_list (cols : string) (master_task_list : list Task)
  (task_list : list (Operator * list string)) (dep_tasks : list Task)
  : result (list Task) :=
  match task_list with
  | [] => OK dep_tasks
  | entry :: rest =>
      dep_tasks <- build_target cols master_task_list dep_tasks entry ;;
      build_task_list cols master_task_list rest dep_tasks
  end.

Fixpoint build_task_dict (task_dict : dict (list (Operator * list string)))
  (master_task_list : list Task) (dep_tasks : list Task)
  : result (list Task) :=
  match task_dict with
  | [] => OK dep_tasks
  | (cols, task_list) :: rest =>
      dep_tasks <- build_task_list cols master_task_list task_list dep_tasks ;;
      build_task_dict rest master_task_list dep_tasks
  end.

(** [_build_tasks]; the argument [task_set] is not used by the source. *)
Definition _build_tasks (task_dict : dict (list (Operator * list string)))
  (task_set : string) (master_task_list : list Task) : result (list Task) :=
  build_task_dict task_dict master_task_list [].

(** The loop of [load_config] over [config.keys()]: it fills [task_sets]
    and grows [master_task_list]. *)
Fixpoint build_task_sets (config : DepConfig) (task_sets : dict (list Task))
  (master_task_list : list Task) : result (dict (list Task) * list Task) :=
  match config with
  | [] => OK (task_sets, master_task_list)
  | (task_set, task_dict) :: rest =>
      tasks <- _build_tasks task_dict task_set master_task_list ;;
      build_task_sets rest (setitem task_set tasks task_sets)
        (master_task_list ++ tasks)
  end.

(* ================================================================== *)
(** ** Phase assembler *)

(** The test of [_sort_task_types]: ["base" in tup[2]] and [not tup[3]]. *)
Definition is_nodep (tup : Task) : bool :=
  py_in string_dec base (task_deps tup) && is_empty (task_parents tup).

(** The loop [for tup in master_list] of [_sort_task_types].  The list
    iterator of Python keeps an index [i] into the list object and stops when
    [i] reaches the current length; [master_list.remove(tup)] shortens the
    list under it, and the index still advances by one.  Each iteration
    advances [i], so [fuel] iterations suffice when [fuel] is the length of
    the list at the start. *)
Fixpoint sort_loop (fuel i : nat) (master_list nodeps : list Task)
  : list Task * list Task :=
  match fuel with
  | 0 => (nodeps, master_list)
  | S fuel' =>
      match nth_error master_list i with
      | None => (nodeps, master_list)
      | Some tup =>
          if is_nodep tup then
            sort_loop fuel' (S i) (remove_first Task_eq_dec tup master_list)
              (nodeps ++ [tup])
          else sort_loop fuel' (S i) master_list nodeps
      end
  end.

(** [_sort_task_types]: returns [(nodeps, master_list)]. *)
Definition _sort_task_types (master_list : list Task)
  : list Task * list Task :=
  sort_loop (List.length master_list) 0 master_list [].

(** [_find_parents], innermost loop [for task in phase]. *)
Fixpoint find_parents_tasks (op : Operator) (phase : Phase)
  (ops_copy : list Operator) : result (list Operator) :=
  match phase with
  | [] => OK ops_copy
  | task :: rest =>
      if is_empty ops_copy then OK ops_copy
      else if str_in (_id op) (_id (task_op task)) then
        ops_copy <- list_remove Operator_eq_dec op ops_copy ;;
        find_parents_tasks op rest ops_copy
      else find_parents_tasks op rest ops_copy
  end.

(** [_find_parents], loop [for phase in self.phases[:phase_idx]]. *)
Fixpoint find_parents_phases (op : Operator) (phases : list Phase)
  (ops_copy : list Operator) : result (list Operator) :=
  match phases with
  | [] => OK ops_copy
  | phase :: rest =>
      if is_empty ops_copy then OK ops_copy
      else
        ops_copy <- find_parents_tasks op phase ops_copy ;;
        find_parents_phases op rest ops_copy
  end.

(** [_find_parents], loop [for op in ops_list]. *)
Fixpoint find_parents_ops (ops_list : list Operator) (phases : list Phase)
  (ops_copy : list Operator) : result (list Operator) :=
  match ops_list with
  | [] => OK ops_copy
  | op :: rest =>
      ops_copy <- find_parents_phases op phases ops_copy ;;
      find_parents_ops rest phases ops_copy
  end.

(** [_find_parents]: returns [True] when [ops_copy] ends empty and [None]
    (false in a condition) otherwise. *)
Definition _find_parents (phases : list Phase) (ops_list : list Operator)
  (phase_idx : nat) : result bool :=
  ops_copy <- find_parents_ops ops_list (firstn phase_idx phases) ops_list ;;
  OK (is_empty ops_copy).

(** [_phase_creator], loop [for p_task in phase]. *)
Fixpoint scan_phase (phase : Phase) (cols_needed : list string)
  : list string :=
  match phase with
  | [] => cols_needed
  | p_task :: rest =>
      if is_empty cols_needed then cols_needed
      else if py_in string_dec (_id (task_op p_task)) cols_needed then
        scan_phase rest
          (remove_first string_dec (_id (task_op p_task)) cols_needed)
      else scan_phase rest cols_needed
  end.

(** [_phase_creator], loop [for idx, phase in enumerate(self.phases)]:
    [rest] is what is left to enumerate from index [idx] on.  The result is
    the index of the phase the task is appended to, if any. *)
Fixpoint scan_phases (phases : list Phase) (task : Task) (idx : nat)
  (rest : list Phase) (cols_needed : list string) : result (option nat) :=
  match rest with
  | [] => OK None
  | phase :: rest' =>
      let cols_needed := scan_phase phase cols_needed in
      if is_empty cols_needed then
        found <- _find_parents phases (task_parents task) idx ;;
        if found then OK (Some idx)
        else scan_phases phases task (S idx) rest' cols_needed
      else scan_phases phases task (S idx) rest' cols_needed
  end.

(** [self.phases[idx].append(task)] *)
Fixpoint append_to_phase (idx : nat) (task : Task) (phases : list Phase)
  : list Phase :=
  match phases, idx with
  | [], _ => []
  | phase :: rest, 0 => (phase ++ [task]) :: rest
  | phase :: rest, S idx' => phase :: append_to_phase idx' task rest
  end.

(** The body of [for task in task_list] in [_phase_creator]. *)
Definition place_task (phases : list Phase) (task : Task)
  : result (list Phase) :=
  let cols_needed := task_deps task in
  let cols_needed :=
    if py_in string_dec base cols_needed
    then remove_first string_dec base cols_needed
    else cols_needed in
  added <- scan_phases phases task 0 phases cols_needed ;;
  match added with
  | Some idx => OK (append_to_phase idx task phases)
  | None => OK (phases ++ [[task]])
  end.

(** [_phase_creator] on [self.phases]. *)
Fixpoint _phase_creator (phases : list Phase) (task_list : list Task)
  : result (list Phase) :=
  match task_list with
  | [] => OK phases
  | task :: rest =>
      phases <- place_task phases task ;;
      _phase_creator phases rest
  end.

(* ================================================================== *)
(** ** The workflow object *)

(** A value of the statistics store: structured data that
    [yaml.safe_dump] can write. *)
Inductive StatValue : Type :=
| SNum (z : Z)
| SStr (s : string)
| SSeq (l : list StatValue)
| SMap (d : list (string * StatValue)).

(** A value under [columns_ctx[group]]: a list of column names, or, under
    the group ["final"], a dictionary from column group to a list of
    operator identifiers (["ctx"]) or of column names (["cols"]). *)
Inductive CtxEntry : Type :=
| Cols (names : list string)
| Final (refs : dict (list string)).

Definition ColumnsCtx : Type := dict (dict CtxEntry).

(** [not entry] *)
Definition entry_is_empty (e : CtxEntry) : bool :=
  match e with
  | Cols names => is_empty names
  | Final refs => is_empty refs
  end.

(** What [warnings.warn] was called with. *)
Inductive Warning : Type :=
| DidNotAddOperators (operators : ConfigEntry)
| NoMainKeyOrSubKey (phase : string) (target_cols : option string).

(** The attributes of a workflow that the modelled methods read or write.
    [config = None] stands for an instance on which the attribute was never
    set.  [warnings] is the trace of the warnings issued so far.  The
    wall-clock [timings] are left out. *)
Record Workflow : Type := mkWorkflow {
  phases : list Phase;
  columns_ctx : ColumnsCtx;
  stats : dict StatValue;
  config : option Config;
  warnings : list Warning;
  _base_phase : nat
}.

Definition set_phases (ps : list Phase) (self : Workflow) : Workflow :=
  mkWorkflow ps (columns_ctx self) (stats self) (config self)
    (warnings self) (_base_phase self).

Definition set_columns_ctx (c : ColumnsCtx) (self : Workflow) : Workflow :=
  mkWorkflow (phases self) c (stats self) (config self)
    (warnings self) (_base_phase self).

Definition set_config (c : Config) (self : Workflow) : Workflow :=
  mkWorkflow (phases self) (columns_ctx self) (stats self) (Some c)
    (warnings self) (_base_phase self).

Definition warn (w : Warning) (self : Workflow) : Workflow :=
  mkWorkflow (phases self) (columns_ctx self) (stats self) (config self)
    (warnings self ++ [w]) (_base_phase self).

(** [clear_stats] *)
Definition clear_stats (self : Workflow) : Workflow :=
  mkWorkflow (phases self) (columns_ctx self) [] (config self)
    (warnings self) (_base_phase self).

(** The loop [for x in final[task[1]]: if x in task[2]:
    final[task[1]].remove(x)] of [_create_final_col_refs]; it removes from
    the list it iterates over, so the iterator index [i] is written out as
    in [sort_loop]. *)
Fixpoint prune_loop (fuel i : nat) (refs deps : list string) : list string :=
  match fuel with
  | 0 => refs
  | S fuel' =>
      match nth_error refs i with
      | None => refs
      | Some x =>
          if py_in string_dec x deps
          then prune_loop fuel' (S i) (remove_first string_dec x refs) deps
          else prune_loop fuel' (S i) refs deps
      end
  end.

(** The loop [for task in task_sets["PP"]] of [_create_final_col_refs]. *)
Fixpoint final_refs_loop (tasks : list Task) (final : dict (list string))
  : dict (list string) :=
  match tasks with
  | [] => final
  | task :: rest =>
      let refs :=
        match lookup (task_cols task) final with
        | Some refs => refs
        | None => []
        end in
      let refs := prune_loop (List.length refs) 0 refs (task_deps task) in
      let refs :=
        if negb (base_is_stat (task_op task))
        then refs ++ [_id (task_op task)] else refs in
      final_refs_loop rest (setitem (task_cols task) refs final)
  end.

(** The loop [for col_ctx in self.columns_ctx["label"].values()]. *)
Fixpoint final_label_loop (ctxs : list CtxEntry) (label : list string)
  : result (list string) :=
  match ctxs with
  | [] => OK label
  | col_ctx :: rest =>
      if is_empty label then final_label_loop rest [base]
      else match col_ctx with
           | Cols names => final_label_loop rest (label ++ names)
           | Final _ => Raise TypeError
           end
  end.

Definition default_to_base (group : string) (final : dict (list string))
  : dict (list string) :=
  if has_key group final then final else setitem group [base] final.

(** [_create_final_col_refs] *)
Definition _create_final_col_refs (self : Workflow)
  (task_sets : dict (list Task)) : result Workflow :=
  if has_key "final" (columns_ctx self) then OK self
  else
    pp <- getitem "PP" task_sets ;;
    let final := final_refs_loop pp [] in
    label_ctx <- getitem "label" (columns_ctx self) ;;
    label <- final_label_loop (values label_ctx) [] ;;
    let final := setitem "label" label final in
    let final := default_to_base "continuous" final in
    let final := default_to_base "categorical" final in
    let final := default_to_base "all" final in
    OK (set_columns_ctx
          (setitem "final" [("ctx", Final final)] (columns_ctx self)) self).

(** The part of [load_config] after the configuration has been compiled
    to a dependency dictionary. *)
Definition load_dep_config (self : Workflow) (config : DepConfig)
  : result Workflow :=
  built <- build_task_sets config [] [] ;;
  let '(task_sets, master_task_list) := built in
  let '(baseline, leftovers) := _sort_task_types master_task_list in
  let phases0 :=
    if is_empty baseline then phases self else phases self ++ [baseline] in
  phases1 <- _phase_creator phases0 leftovers ;;
  _create_final_col_refs (set_phases phases1 self) task_sets.

(** [load_config(config)], with [pro=False]. *)
Definition load_config (self : Workflow) (config : Config) : result Workflow :=
  load_dep_config self (_compile_dict_from_list config).

(** [load_config(config, pro=True)]: the configuration is already a
    dependency dictionary. *)
Definition load_config_pro (self : Workflow) (config : DepConfig)
  : result Workflow :=
  load_dep_config self config.


(** [BaseWorkflow.__init__] and [Workflow.__init__], for the arguments
    [cat_names], [cont_names], [label_name] given as lists. *)
Definition Workflow_init (cat_names cont_names label_name : list string)
  (cfg : option Config) : result Workflow :=
  let ctx : ColumnsCtx :=
    [ ("all", [(base, Cols (cont_names ++ cat_names ++ label_name))]);
      ("continuous", [(base, Cols cont_names)]);
      ("categorical", [(base, Cols cat_names)]);
      ("label", [(base, Cols label_name)]) ] in
  let self := mkWorkflow [] ctx [] None [] 0 in
  self <- match cfg with
          | Some c =>
              if is_empty c then OK (set_config get_new_config self)
              else load_config self c
          | None => OK (set_config get_new_config self)
          end ;;
  OK (clear_stats self).

(* ================================================================== *)
(** ** Operator-list API *)

(** [_get_target_cols]: [operators[0]] raises on an empty list. *)
Definition _get_target_cols (operators : ConfigEntry)
  : result (option string) :=
  match operators with
  | Chain [] => Raise IndexError
  | Chain (op :: _) => OK (get_default_in op)
  | Single op => OK (get_default_in op)
  end.

(** [not target_cols] *)
Definition target_is_empty (target_cols : option string) : bool :=
  match target_cols with
  | None => true
  | Some t => String.eqb t ""
  end.

(** The condition of the first [if] of [_config_add_ops]:
    [not target_cols or (target_cols in self.columns_ctx
     and not self.columns_ctx[target_cols]["base"])]. *)
Definition no_target_columns (ctx : ColumnsCtx) (target_cols : option string)
  : result bool :=
  match target_cols with
  | None => OK true
  | Some t =>
      if String.eqb t "" then OK true
      else match lookup t ctx with
           | None => OK false
           | Some group =>
               cols <- getitem base group ;;
               OK (entry_is_empty cols)
           end
  end.

(** [_config_add_ops] *)
Definition _config_add_ops (self : Workflow) (operators : ConfigEntry)
  (phase : string) : result Workflow :=
  target_cols <- _get_target_cols operators ;;
  skip <- no_target_columns (columns_ctx self) target_cols ;;
  if skip then OK (warn (DidNotAddOperators operators) self)
  else
    match config self with
    | None => Raise AttributeError
    | Some cfg =>
        match lookup phase cfg, target_cols with
        | Some stage, Some t =>
            match lookup t stage with
            | Some entries =>
                OK (set_config
                      (setitem phase
                         (setitem t (entries ++ [operators]) stage) cfg)
                      self)
            | None => OK (warn (NoMainKeyOrSubKey phase target_cols) self)
            end
        | _, _ => OK (warn (NoMainKeyOrSubKey phase target_cols) self)
        end
    end.

(** [add_feature] *)
Definition add_feature (self : Workflow) (operators : ConfigEntry)
  : result Workflow :=
  _config_add_ops self operators "FE".

(* ================================================================== *)
(** ** Reordering *)

(** [deps == ["base"]] *)
Definition deps_is_base (deps : list string) : bool :=
  if list_eq_dec string_dec deps [base] then true else false.

(** The loop [for task in phase] of [reorder_tasks], on the three lists
    it appends to. *)
Fixpoint reorder_phase (phase : Phase)
  (cat_stat_tasks cont_stat_tasks new_phase : list Task)
  : list Task * list Task * list Task :=
  match phase with
  | [] => (cat_stat_tasks, cont_stat_tasks, new_phase)
  | task :: rest =>
      let targ := task_cols task in
      let deps := task_deps task in
      if is_stat (task_op task) then
        if deps_is_base deps then
          if String.eqb targ "categorical" then
            reorder_phase rest (cat_stat_tasks ++ [task]) cont_stat_tasks
              new_phase
          else
            reorder_phase rest cat_stat_tasks (cont_stat_tasks ++ [task])
              new_phase
        else
          reorder_phase rest cat_stat_tasks cont_stat_tasks
            (new_phase ++ [task])
      else if is_transform (task_op task) then
        reorder_phase rest cat_stat_tasks cont_stat_tasks (new_phase ++ [task])
      else reorder_phase rest cat_stat_tasks cont_stat_tasks new_phase
  end.

(** The loop [for idx, phase in enumerate(self.phases)]. *)
Fixpoint reorder_loop (phases : list Phase)
  (cat_stat_tasks cont_stat_tasks : list Task) (new_phases : list Phase)
  : list Task * list Task * list Phase :=
  match phases with
  | [] => (cat_stat_tasks, cont_stat_tasks, new_phases)
  | phase :: rest =>
      let '(cat_stat_tasks, cont_stat_tasks, new_phase) :=
        reorder_phase phase cat_stat_tasks cont_stat_tasks [] in
      reorder_loop rest cat_stat_tasks cont_stat_tasks
        (if is_empty new_phase then new_phases
         else new_phases ++ [new_phase])
  end.

(** The phase list that [reorder_tasks] assigns to [self.phases]. *)
Definition reordered (phases : list Phase) : list Phase :=
  let '(cat_stat_tasks, cont_stat_tasks, new_phases) :=
    reorder_loop phases [] [] [] in
  (if is_empty cat_stat_tasks then [] else [cat_stat_tasks])
    ++ (if is_empty cont_stat_tasks then [] else [cont_stat_tasks])
    ++ new_phases.

(** [reorder_tasks] *)
Definition reorder_tasks (self : Workflow) : Workflow :=
  set_phases (reordered (phases self)) self.

(* ================================================================== *)
(** ** Applying the transforms to a dataframe *)

(** What iterating over a value of [columns_ctx[group]] yields: the
    elements of a list, the keys of a dictionary. *)
Definition entry_names (e : CtxEntry) : list string :=
  match e with
  | Cols names => names
  | Final refs => keys refs
  end.

(** The inner loop of [get_final_cols_names]. *)
Fixpoint add_new_names (c_names col_names : list string) : list string :=
  match c_names with
  | [] => col_names
  | name :: rest =>
      if negb (py_in string_dec name col_names)
      then add_new_names rest (col_names ++ [name])
      else add_new_names rest col_names
  end.

(** [get_final_cols_names] *)
Definition get_final_cols_names (self : Workflow) (col_type : string)
  : result (list string) :=
  group <- getitem col_type (columns_ctx self) ;;
  OK (fold_left (fun col_names e => add_new_names (entry_names e) col_names)
        (values group) []).

(** [l[i]] for a Python integer [i]: a negative index counts from the
    end. *)
Definition py_getitem {A : Type} (l : list A) (i : Z) : result A :=
  let n := Z.of_nat (List.length l) in
  let j := if (i <? 0)%Z then (i + n)%Z else i in
  if (j <? 0)%Z then Raise IndexError
  else match nth_error l (Z.to_nat j) with
       | Some x => OK x
       | None => Raise IndexError
       end.

(** [range(start, end)] *)
Definition py_range (start stop : Z) : list Z :=
  map (fun k => (start + Z.of_nat k)%Z) (seq 0 (Z.to_nat (stop - start))).

Section Executor.

(** The dataframe type and the output datatypes are opaque here. *)
Variable DataFrame : Type.
Variable Dtypes : Type.

(** Modelled from the spec: [op.apply_op] belongs to the operator classes
    of [nvtabular/ops.py].  By the operator contract a transform maps a
    partition to a partition given the column context, the column group
    and the target columns; a stat-dependent transform also receives the
    statistics store, as a read view.  The column context is passed by
    reference and the operator registers the columns it produces in it,
    so the updated context is part of the result. *)
Variable apply_op :
  Operator -> DataFrame -> ColumnsCtx -> string -> list string ->
  option (dict StatValue) -> DataFrame * ColumnsCtx.

(** [nvtabular.io.dataset._set_dtypes] *)
Variable _set_dtypes : DataFrame -> option Dtypes -> DataFrame.

(** Modelled from the spec: the writer collaborator, seen through the
    calls [apply_ops] makes on it: the flag [need_cal_col_names], the
    names given to [set_col_names(labels, cats, conts)] and the
    dataframes given to [add_data]. *)
Record Writer : Type := mkWriter {
  need_cal_col_names : bool;
  col_names : option (list string * list string * list string);
  added_data : list DataFrame
}.

(** The state threaded through [apply_ops]: the workflow, the dataframe,
    the writer, and the trace of the operators whose [apply_op] was
    called. *)
Record ApplyState : Type := mkApplyState {
  a_self : Workflow;
  a_gdf : DataFrame;
  a_writer : option Writer;
  a_applied : list Operator
}.

(** One iteration of the loop of [_run_trans_ops_for_phase]. *)
Definition run_trans_op (st : ApplyState) (task : Task) : ApplyState :=
  let self := a_self st in
  let op := task_op task in
  let cols_grp := task_cols task in
  let target_cols := task_deps task in
  if is_df op then
    let '(gdf, ctx) :=
      apply_op op (a_gdf st) (columns_ctx self) cols_grp target_cols
        (Some (stats self)) in
    mkApplyState (set_columns_ctx ctx self) gdf (a_writer st)
      (a_applied st ++ [op])
  else if is_transform op then
    let '(gdf, ctx) :=
      apply_op op (a_gdf st) (columns_ctx self) cols_grp target_cols None in
    mkApplyState (set_columns_ctx ctx self) gdf (a_writer st)
      (a_applied st ++ [op])
  else st.

(** [_run_trans_ops_for_phase] *)
Definition _run_trans_ops_for_phase (st : ApplyState) (tasks : Phase)
  : ApplyState :=
  fold_left run_trans_op tasks st.

(** The writing step of [apply_ops], taken when the last phase has been
    applied and a writer and an output path were given. *)
Definition write_out (st : ApplyState) (w : Writer)
  (dtypes : option Dtypes) : result ApplyState :=
  w <- (if need_cal_col_names w then
          cat_names <- get_final_cols_names (a_self st) "categorical" ;;
          cont_names <- get_final_cols_names (a_self st) "continuous" ;;
          label_names <- get_final_cols_names (a_self st) "label" ;;
          OK (mkWriter false (Some (label_names, cat_names, cont_names))
                (added_data w))
        else OK w) ;;
  let gdf := _set_dtypes (a_gdf st) dtypes in
  OK (mkApplyState (a_self st) gdf
        (Some (mkWriter (need_cal_col_names w) (col_names w)
                 (added_data w ++ [gdf])))
        (a_applied st)).

(** [writer and output_path] *)
Definition can_write (writer : option Writer) (output_path : option string)
  : bool :=
  match writer, output_path with
  | Some _, Some p => negb (String.eqb p "")
  | _, _ => false
  end.

(** The loop [for phase_index in range(start, end)] of [apply_ops]. *)
Fixpoint apply_ops_loop (indices : list Z) (output_path : option string)
  (dtypes : option Dtypes) (st : ApplyState) : result ApplyState :=
  match indices with
  | [] => OK st
  | phase_index :: rest =>
      phase <- py_getitem (phases (a_self st)) phase_index ;;
      let st := _run_trans_ops_for_phase st phase in
      st <- (if (phase_index =?
                   Z.of_nat (List.length (phases (a_self st))) - 1)%Z
                && can_write (a_writer st) output_path
             then match a_writer st with
                  | Some w => write_out st w dtypes
                  | None => OK st
                  end
             else OK st) ;;
      apply_ops_loop rest output_path dtypes st
  end.

(** [x if x else d] for an optional integer argument. *)
Definition int_or (x : option Z) (d : Z) : Z :=
  match x with
  | Some z => if (z =? 0)%Z then d else z
  | None => d
  end.

(** [apply_ops]: the result carries the returned dataframe, the workflow
    and the writer as the call leaves them. *)
Definition apply_ops (self : Workflow) (gdf : DataFrame)
  (start_phase end_phase : option Z) (writer : option Writer)
  (output_path : option string) (dtypes : option Dtypes)
  : result ApplyState :=
  let start := int_or start_phase 0%Z in
  let stop := int_or end_phase (Z.of_nat (List.length (phases self))) in
  apply_ops_loop (py_range start stop) output_path dtypes
    (mkApplyState self gdf writer []).

End Executor.

(* ================================================================== *)
(** ** Vocabulary of the reordering properties *)

(** A statistic task that depends on the raw input only. *)
Definition hoistable (t : Task) : bool :=
  is_stat (task_op t) && deps_is_base (task_deps t).

Definition is_cat_stat (t : Task) : bool :=
  hoistable t && String.eqb (task_cols t) "categorical".

Definition is_cont_stat (t : Task) : bool :=
  hoistable t && negb (String.eqb (task_cols t) "categorical").

(** A task that [reorder_tasks] keeps in the phase it was in: a statistic
    task that depends on a transform, or a transform. *)
Definition stays (t : Task) : bool :=
  negb (hoistable t)
  && (is_stat (task_op t) || is_transform (task_op t)).

(** The phases that are left after the hoisted tasks are taken out. *)
Definition embedded_phases (ps : list Phase) : list Phase :=
  filter (fun p => negb (is_empty p)) (map (filter stays) ps).

(** [[l] if l else []] *)
Definition opt_phase (l : list Task) : list Phase :=
  if is_empty l then [] else [l].

(* ================================================================== *)
(** ** Sample operators, tasks and configurations *)

Definition opNormalizeMinMax : Operator :=
  mkOperator 1 "NormalizeMinMax" TransformOperator (Some "continuous") None.

Definition opNormalize : Operator :=
  mkOperator 2 "Normalize" TransformOperator (Some "continuous") None.

Definition opLogOp : Operator :=
  mkOperator 3 "LogOp" TransformOperator (Some "continuous") None.

Definition opFillMissing : Operator :=
  mkOperator 4 "FillMissing" TransformOperator (Some "continuous") None.

(** The operator-list configuration with the given entries for the
    continuous and the categorical group of the two stages. *)
Definition sample_config (fe_cont fe_cat pp_cont pp_cat : list ConfigEntry)
  : Config :=
  [ ("FE", [("all", []); ("continuous", fe_cont); ("categorical", fe_cat)]);
    ("PP", [("all", []); ("continuous", pp_cont); ("categorical", pp_cat)]) ].

(** A workflow as [Workflow(cat_names=["c"], cont_names=["x"],
    label_name=["y"])] leaves it. *)
Definition sample_workflow : Workflow :=
  mkWorkflow []
    [ ("all", [(base, Cols ["x"; "c"; "y"])]);
      ("continuous", [(base, Cols ["x"])]);
      ("categorical", [(base, Cols ["c"])]);
      ("label", [(base, Cols ["y"])]) ]
    [] (Some get_new_config) [] 0.

(** The phases of a result, when there is one. *)
Definition phases_of (r : result Workflow) : option (list Phase) :=
  match r with
  | OK self => Some (phases self)
  | Raise _ => None
  end.

(** A categorical operator, and a workflow built without categorical
    columns: [Workflow(cat_names=[], cont_names=["x"], label_name=["y"])]. *)
Definition opCategorify : Operator :=
  mkOperator 5 "Categorify" TransformOperator (Some "categorical") None.

Definition no_cat_workflow : Workflow :=
  mkWorkflow []
    [ ("all", [(base, Cols ["x"; "y"])]);
      ("continuous", [(base, Cols ["x"])]);
      ("categorical", [(base, Cols [])]);
      ("label", [(base, Cols ["y"])]) ]
    [] (Some get_new_config) [] 0.

(** A statistic operator and a transform that requires it. *)
Definition opMoments : Operator :=
  mkOperator 6 "Moments" StatOperator (Some "continuous") None.

Definition opZScore : Operator :=
  mkOperator 7 "ZScore" DFOperator (Some "continuous") (Some [opMoments]).

(** A toy dataframe: the list of the identifiers of the operators applied
    to it; the toy [apply_op] registers the operator in the column
    context. *)
Definition toy_apply_op (op : Operator) (gdf : list string)
  (ctx : ColumnsCtx) (cols_grp : string) (target_cols : list string)
  (stats_context : option (dict StatValue)) : list string * ColumnsCtx :=
  (gdf ++ [_id op],
   match lookup cols_grp ctx with
   | Some group => setitem cols_grp (setitem (_id op) (Cols [_id op]) group) ctx
   | None => ctx
   end).

Definition toy_set_dtypes (gdf : list string) (dtypes : option unit)
  : list string := gdf.

(** A workflow with a statistic phase and a transform phase, and one
    statistic in the store. *)
Definition stats_workflow : Workflow :=
  mkWorkflow
    [ [mkTask opMoments "continuous" [base] []];
      [mkTask opZScore "continuous" [base] [opMoments];
       mkTask opLogOp "continuous" ["ZScore"] []] ]
    [ ("all", [(base, Cols ["x"; "c"; "y"])]);
      ("continuous", [(base, Cols ["x"])]);
      ("categorical", [(base, Cols ["c"])]);
      ("label", [(base, Cols ["y"])]) ]
    [("means", SMap [("x", SNum 3)])] (Some get_new_config) [] 0.

(** The operators of a phase whose [apply_op] is due. *)
Definition transforms_of (tasks : Phase) : list Operator :=
  filter is_transform (map task_op tasks).

(** An operator that is not a statistic operator and requires no
    statistics: it has no attribute [req_stats] (and then is not a
    [DFOperator]), or the list is empty. *)
Definition requires_no_stats (op : Operator) : Prop :=
  is_stat op = false
  /\ match req_stats op with
     | None => is_df op = false
     | Some reqs => reqs = []
     end.

(** The ways a configuration can declare a statistic operator [S] and a
    transform [T] that requires it, both on the continuous group and
    outside any chain: [fe] and [pp] are the entries of the continuous group
    in the two stages.  [T] may stand alone, since [_build_tasks] adds the
    statistics it requires.  With [S] in the first stage and [T] in the
    second, [T] is compared with the task of [S] by [_is_repeat_op], so its
    identifier is asked not to occur inside that of [S]. *)
Definition declares_stat_and_transform (S T : Operator)
  (fe pp : list ConfigEntry) : Prop :=
  In (fe, pp)
    [ ([Single S; Single T], []); ([Single T; Single S], []);
      ([], [Single S; Single T]); ([], [Single T; Single S]);
      ([Single T], [Single S]); ([Single T], []); ([], [Single T]) ]
  \/ ((fe, pp) = ([Single S], [Single T])
      /\ str_in (_id T) (_id S) = false).

(** A transform whose identifier is the sentinel [base], and a chain on
    the categorical group with this operator in the middle. *)
Definition opNamedBase : Operator :=
  mkOperator 13 "base" TransformOperator (Some "categorical") None.

Definition base_named_chain_config : Config :=
  sample_config [] [Chain [opLogOp; opNamedBase; opFillMissing]] [] [].

(** A statistic operator and a transform that requires it, the identifier
    of the transform being the beginning of that of the statistic. *)
Definition opZScoreStats : Operator :=
  mkOperator 14 "ZScoreStats" StatOperator (Some "continuous") None.

Definition opZScoreOnStats : Operator :=
  mkOperator 15 "ZScore" DFOperator (Some "continuous")
    (Some [opZScoreStats]).

(* ================================================================== *)
(** ** Vocabulary of the placement properties *)

(** Some task in a phase of index at most [k] has an operator with
    identifier [d]. *)
Definition produced_upto (phases : list Phase) (k : nat) (d : string) : Prop :=
  exists j p u,
    j <= k /\ nth_error phases j = Some p /\ In u p /\ _id (task_op u) = d.

(** Some task in a phase of index less than [k] has an operator with
    identifier [d]. *)
Definition produced_before (phases : list Phase) (k : nat) (d : string)
  : Prop :=
  exists j p u,
    j < k /\ nth_error phases j = Some p /\ In u p /\ _id (task_op u) = d.

(** Some task in a phase of index less than [k] has an operator whose
    identifier contains that of [op]: the test of [_find_parents]. *)
Definition found_before (phases : list Phase) (k : nat) (op : Operator)
  : Prop :=
  exists j p u,
    j < k /\ nth_error phases j = Some p /\ In u p
    /\ str_in (_id op) (_id (task_op u)) = true.

Definition deps_met (phases : list Phase) (k : nat) (t : Task) : Prop :=
  forall d, In d (task_deps t) -> d <> base -> produced_upto phases k d.

Definition parents_met (phases : list Phase) (k : nat) (t : Task) : Prop :=
  forall op, In op (task_parents t) -> found_before phases k op.

(** Every task of every phase has its column dependencies in its own or
    an earlier phase, and its required parents in an earlier phase. *)
Definition well_placed (phases : list Phase) : Prop :=
  forall k p t,
    nth_error phases k = Some p -> In t p ->
    deps_met phases k t /\ parents_met phases k t.

(** The placement with the parents taken by their identifier: every
    required parent of a task of phase [k] is the operator, by its
    identifier, of a task of a phase of index less than [k]. *)
Definition placed_by_identifier (phases : list Phase) : Prop :=
  forall k p t,
    nth_error phases k = Some p -> In t p ->
    deps_met phases k t
    /\ forall op, In op (task_parents t) -> produced_before phases k (_id op).

(** Every dependency entry is [base] or is produced in a strictly earlier
    phase. *)
Definition deps_strictly_earlier (phases : list Phase) : Prop :=
  forall k p t d,
    nth_error phases k = Some p -> In t p -> In d (task_deps t) ->
    d = base \/ produced_before phases k d.

(** Every dependency entry is [base] or is produced in the same or an
    earlier phase. *)
Definition deps_not_later (phases : list Phase) : Prop :=
  forall k p t d,
    nth_error phases k = Some p -> In t p -> In d (task_deps t) ->
    d = base \/ produced_upto phases k d.

(** What a task depends on is found among the tasks of [pool]. *)
Definition resolved_in (pool : list Task) (t : Task) : Prop :=
  (forall d, In d (task_deps t) -> d <> base ->
     exists u, In u pool /\ _id (task_op u) = d)
  /\ (forall op, In op (task_parents t) ->
        exists u, In u pool /\ str_in (_id op) (_id (task_op u)) = true).

(** A master task list in which each task finds what it depends on among
    the tasks before it: a task with the identifier of each dependency
    other than [base], and for each required parent a task whose identifier
    contains the parent's. *)
Definition resolvable (master_task_list : list Task) : Prop :=
  forall before t after,
    master_task_list = before ++ t :: after -> resolved_in before t.

(** The master task list [load_config] builds from a configuration. *)
Definition master_of (config : DepConfig) : result (list Task) :=
  built <- build_task_sets config [] [] ;;
  OK (snd built).

(** [alist] is [blist] with some elements taken out, each of which is in
    [removed]. *)
Inductive taken_out (removed : list Task) : list Task -> list Task -> Prop :=
| taken_nil : taken_out removed [] []
| taken_keep : forall x all kept,
    taken_out removed all kept -> taken_out removed (x :: all) (x :: kept)
| taken_drop : forall x all kept,
    In x removed -> taken_out removed all kept ->
    taken_out removed (x :: all) kept.

(** [phases'] has the phases of [phases], each possibly with more tasks,
    and possibly more phases. *)
Definition extends (phases phases' : list Phase) : Prop :=
  forall j p, nth_error phases j = Some p ->
    exists p', nth_error phases' j = Some p' /\ incl p p'.

(** What a task depends on is found, by its identifier, among the tasks
    of [pool]. *)
Definition deps_resolved_in (pool : list Task) (t : Task) : Prop :=
  forall d, In d (task_deps t) -> d <> base ->
    exists u, In u pool /\ _id (task_op u) = d.

Definition resolved_by_identifier_in (pool : list Task) (t : Task) : Prop :=
  deps_resolved_in pool t
  /\ (forall op, In op (task_parents t) ->
        exists u, In u pool /\ _id (task_op u) = _id op).

(** A master task list in which each task finds, among the tasks before
    it, a task with the identifier of each of its dependencies other than
    [base]. *)
Definition deps_resolvable (master_task_list : list Task) : Prop :=
  forall before t after,
    master_task_list = before ++ t :: after -> deps_resolved_in before t.

(** The same, for the required parents too. *)
Definition resolvable_by_identifier (master_task_list : list Task) : Prop :=
  forall before t after,
    master_task_list = before ++ t :: after ->
    resolved_by_identifier_in before t.

(** A task that passes the test of [_sort_task_types] ([base] among its
    dependencies, no required parent) has no dependency but [base]. *)
Definition seeds_on_base_only (master_task_list : list Task) : Prop :=
  forall t, In t master_task_list -> is_nodep t = true ->
    forall d, In d (task_deps t) -> d = base.

(** No task of the phases has an identifier that contains the identifier
    of [op] without being equal to it. *)
Definition unshadowed (phases : list Phase) (op : Operator) : Prop :=
  forall u, In u (List.concat phases) ->
    str_in (_id op) (_id (task_op u)) = true -> _id (task_op u) = _id op.

(** [load_config(config)] or [load_config(config, pro=True)] returns and
    leaves the workflow [self']; [config] is the dependency dictionary the
    call works on: the argument itself with [pro=True], what
    [_compile_dict_from_list] makes of the operator lists otherwise. *)
Definition loads (self : Workflow) (config : DepConfig) (self' : Workflow)
  : Prop :=
  (exists cfg : Config,
     config = _compile_dict_from_list cfg /\ load_config self cfg = OK self')
  \/ load_config_pro self config = OK self'.

(** Decision procedures for [resolvable_by_identifier] ([before] holds the
    tasks already passed) and [seeds_on_base_only]. *)
Fixpoint resolvable_by_identifier_from (before rest : list Task) : bool :=
  match rest with
  | [] => true
  | t :: rest' =>
      forallb (fun d =>
                 String.eqb d base
                 || existsb (fun u => String.eqb (_id (task_op u)) d) before)
        (task_deps t)
      && forallb (fun op =>
                    existsb (fun u => String.eqb (_id (task_op u)) (_id op))
                      before)
           (task_parents t)
      && resolvable_by_identifier_from (before ++ [t]) rest'
  end.

Definition seeds_on_base_only_b (master_task_list : list Task) : bool :=
  forallb (fun t => negb (is_nodep t)
                    || forallb (fun d => String.eqb d base) (task_deps t))
    master_task_list.

(** A dependency dictionary with a dependency that no operator produces;
    one in which a task depends on [base] and on a transform that requires
    a statistic; and an operator-list configuration in which the head of a
    chain has an identifier that occurs inside the identifier of an
    operator of the first stage. *)
Definition dangling_config : DepConfig :=
  [ ("FE", [("all", []); ("continuous", []); ("categorical", [])]);
    ("PP", [("all", []); ("continuous", [(opLogOp, ["Ghost"])]);
            ("categorical", [])]) ].

Definition base_and_more_config : DepConfig :=
  [ ("FE", [("all", []);
            ("continuous", [(opZScore, []); (opLogOp, [base; "ZScore"])]);
            ("categorical", [])]);
    ("PP", [("all", []); ("continuous", []); ("categorical", [])]) ].

Definition shadowed_chain_config : Config :=
  sample_config [Single opNormalizeMinMax] []
    [Chain [opNormalize; opLogOp]] [].

(** A statistic operator whose identifier contains that of [opMoments],
    and a configuration that declares it before a transform that requires
    [opMoments]. *)
Definition opMomentsByGroup : Operator :=
  mkOperator 8 "MomentsByGroup" StatOperator (Some "continuous") None.

Definition shadowed_parent_config : Config :=
  sample_config [Single opMomentsByGroup] [] [Single opZScore] [].

(** A decision procedure for [resolvable]: [before] holds the tasks
    already passed. *)
Fixpoint resolvable_from (before rest : list Task) : bool :=
  match rest with
  | [] => true
  | t :: rest' =>
      forallb (fun d =>
                 String.eqb d base
                 || existsb (fun u => String.eqb (_id (task_op u)) d) before)
        (task_deps t)
      && forallb (fun op =>
                    existsb (fun u => str_in (_id op) (_id (task_op u)))
                      before)
           (task_parents t)
      && resolvable_from (before ++ [t]) rest'
  end.

(** Every pair of a dependency dictionary has at most one dependency. *)
Definition short_deps (config : DepConfig) : Prop :=
  forall stage task_dict cols task_list op dep_grp,
    In (stage, task_dict) config -> In (cols, task_list) task_dict ->
    In (op, dep_grp) task_list -> List.length dep_grp <= 1.

(** A task with exactly one dependency entry. *)
Definition one_dep (t : Task) : Prop := exists d, task_deps t = [d].

(** A configuration with a chain and a transform that requires a
    statistic. *)
Definition chain_and_stat_config : Config :=
  sample_config [Chain [opLogOp; opFillMissing]] [] [Single opZScore] [].

Definition chain_config : Config :=
  sample_config [Chain [opLogOp; opFillMissing]] [] [] [].

(* ================================================================== *)
(** ** Vocabulary of the further properties *)










(** Each required parent of [t] is matched, the way [_is_repeat_op]
    matches, by a task of [pool] on the column group of [t]. *)
Definition parents_in (pool : list Task) (t : Task) : Prop :=
  forall op, In op (task_parents t) ->
    exists u, In u pool
      /\ str_in (_id op) (_id (task_op u)) = true
      /\ task_cols u = task_cols t.





(* ================================================================== *)
(** ** Executing a phase: the transforms to replay *)






(** [l[:stop]] for a list of length [n]: the number of elements of the
    slice. *)
Definition py_slice_to_length (n : nat) (stop : Z) : nat :=
  if (stop <? 0)%Z then Z.to_nat (Z.of_nat n + stop)
  else Nat.min n (Z.to_nat stop).

(** The calls [self.exec_phase(idx, ..., update_ddf=(idx == (end - 1)))]
    that [build_and_process_graph] makes when [apply_ops] is set, as pairs
    [(idx, update_ddf)]; [n] is [len(self.phases)] after the reordering. *)
Definition graph_exec_calls (n : nat) (end_phase : option Z)
  : list (nat * bool) :=
  let stop := int_or end_phase (Z.of_nat n) in
  map (fun idx => (idx, (Z.of_nat idx =? stop - 1)%Z))
    (seq 0 (py_slice_to_length n stop)).




(* ================================================================== *)
(** ** Vocabulary of the final column references *)



(* ================================================================== *)
(** ** Operator-list API: checked additions and pre-processing *)

(** The test [op.default_in != default_in and op.default_in != "all"] of
    [op_default_check].  [op.default_in] is the default target column group
    of the operator contract, the value that [get_default_in()] gives. *)
Definition not_designed_for (default_in : string) (op : Operator) : bool :=
  match get_default_in op with
  | Some d => negb (String.eqb d default_in) && negb (String.eqb d "all")
  | None => true
  end.

(** The loop [for op in operators] of [op_default_check]; as in
    [sort_loop], [operators.remove(op)] shortens the list under the
    iterator, whose index [i] still advances by one.  [warned] collects the
    identifiers the warnings are issued for. *)
Fixpoint default_check_loop (fuel i : nat) (default_in : string)
  (operators : list Operator) (warned : list string)
  : list Operator * list string :=
  match fuel with
  | 0 => (operators, warned)
  | S fuel' =>
      match nth_error operators i with
      | None => (operators, warned)
      | Some op =>
          if not_designed_for default_in op then
            default_check_loop fuel' (S i) default_in
              (remove_first Operator_eq_dec op operators)
              (warned ++ [_id op])
          else default_check_loop fuel' (S i) default_in operators warned
      end
  end.

(** An argument [operators] as a list:
    [if not type(operators) is list: operators = [operators]]. *)
Definition operators_of (operators : ConfigEntry) : list Operator :=
  match operators with
  | Single op => [op]
  | Chain ops => ops
  end.

(** [op_default_check]: the list it returns, and the identifiers of the
    operators it warned about, in the order of the warnings. *)
Definition op_default_check (operators : ConfigEntry) (default_in : string)
  : list Operator * list string :=
  let operators := operators_of operators in
  default_check_loop (List.length operators) 0 default_in operators [].


(** [add_cont_feature] *)
Definition add_cont_feature (self : Workflow) (operators : ConfigEntry)
  : result (Workflow * list string) :=
  let '(operators, warned) := op_default_check operators "continuous" in
  if is_empty operators then OK (self, warned)
  else self <- add_feature self (Chain operators) ;; OK (self, warned).

(** [l[-1]] *)
Definition py_last {A : Type} (l : list A) : result A :=
  py_getitem l (-1).

(** [add_preprocess].  An operator object is true in a condition (the
    operator classes define neither [__bool__] nor [__len__]), so
    [if op_to_add] only tests for the empty list.  When the last entry of
    [self.config["FE"][target_cols]] is an empty list, [op_to_add] is that
    very list object, and [op_to_add.append(operators)] changes the entry
    of the configuration too. *)
Definition add_preprocess (self : Workflow) (operators : ConfigEntry)
  : result Workflow :=
  target_cols <- _get_target_cols operators ;;
  match config self with
  | None => Raise AttributeError
  | Some cfg =>
      fe <- getitem "FE" cfg ;;
      entries <- match target_cols with
                 | Some t => getitem t fe
                 | None => Raise KeyError
                 end ;;
      let t := match target_cols with Some t => t | None => EmptyString end in
      match entries, operators with
      | [], Single op => _config_add_ops self (Chain [op]) "PP"
      | [], Chain ops => _config_add_ops self (Chain ops) "PP"
      | _ :: _, _ =>
          last_entry <- py_last entries ;;
          match last_entry, operators with
          | Single fe_op, Single op =>
              _config_add_ops self (Chain [fe_op; op]) "PP"
          | Single fe_op, Chain ops =>
              _config_add_ops self (Chain (fe_op :: ops)) "PP"
          | Chain ((_ :: _) as fe_ops), Single op =>
              fe_op <- py_last fe_ops ;;
              _config_add_ops self (Chain [fe_op; op]) "PP"
          | Chain ((_ :: _) as fe_ops), Chain ops =>
              fe_op <- py_last fe_ops ;;
              _config_add_ops self (Chain (fe_op :: ops)) "PP"
          | Chain [], Single op =>
              let entries' := removelast entries ++ [Chain [op]] in
              _config_add_ops
                (set_config (setitem "FE" (setitem t entries' fe) cfg) self)
                (Chain [op]) "PP"
          | Chain [], Chain ops => _config_add_ops self (Chain ops) "PP"
          end
      end
  end.

(** [add_cat_preprocess] *)
Definition add_cat_preprocess (self : Workflow) (operators : ConfigEntry)
  : result (Workflow * list string) :=
  let '(operators, warned) := op_default_check operators "categorical" in
  if is_empty operators then OK (self, warned)
  else self <- add_preprocess self (Chain operators) ;; OK (self, warned).

(** [add_cont_preprocess] *)
Definition add_cont_preprocess (self : Workflow) (operators : ConfigEntry)
  : result (Workflow * list string) :=
  let '(operators, warned) := op_default_check operators "continuous" in
  if is_empty operators then OK (self, warned)
  else self <- add_preprocess self (Chain operators) ;; OK (self, warned).





(* ================================================================== *)
(** * Properties *)

(** ** The result monad, lists, strings and dictionaries *)

Lemma bind_OK_inv {A B : Type} (r : result A) (f : A -> result B) (b : B) :
  bind r f = OK b -> exists a, r = OK a /\ f a = OK b.
Proof.
  destruct r as [a|e]; simpl; intros H.
  - exists a; split; [reflexivity | exact H].
  - discriminate H.
Qed.

Section PyListFacts.
Variable A : Type.
Variable A_eq_dec : forall x y : A, {x = y} + {x <> y}.

Lemma py_in_true x l : py_in A_eq_dec x l = true <-> In x l.
Proof.
  unfold py_in. destruct (in_dec A_eq_dec x l); split; intros; auto; discriminate.
Qed.

Lemma is_empty_true (l : list A) : is_empty l = true <-> l = [].
Proof. destruct l; simpl; split; intros; congruence. Qed.

Lemma remove_first_incl x l y : In y (remove_first A_eq_dec x l) -> In y l.
Proof.
  induction l as [|z l IH]; simpl; auto.
  destruct (A_eq_dec x z); simpl; intuition.
Qed.

Lemma remove_first_other x l y : In y l -> y <> x -> In y (remove_first A_eq_dec x l).
Proof.
  induction l as [|z l IH]; simpl; auto.
  intros [->|Hy] Hne.
  - destruct (A_eq_dec x y); [congruence | now left].
  - destruct (A_eq_dec x z); [assumption | right; auto].
Qed.

Lemma remove_first_length x l :
  In x l -> S (List.length (remove_first A_eq_dec x l)) = List.length l.
Proof.
  induction l as [|z l IH]; simpl; [tauto|].
  intros H. destruct (A_eq_dec x z); [reflexivity|].
  simpl. f_equal. apply IH. destruct H; congruence.
Qed.


Lemma list_remove_OK x l l' :
  list_remove A_eq_dec x l = OK l' -> In x l /\ l' = remove_first A_eq_dec x l.
Proof.
  unfold list_remove. destruct (in_dec A_eq_dec x l); intros H; inversion H; auto.
Qed.
End PyListFacts.

Lemma prefix_refl (s : string) : prefix s s = true.
Proof.
  induction s as [|c s IH]; simpl; [reflexivity|].
  destruct (ascii_dec c c); [assumption | congruence].
Qed.

Lemma str_in_prefix (a b : string) : prefix a b = true -> str_in a b = true.
Proof.
  intros H. destruct b; unfold str_in; fold str_in; now rewrite H.
Qed.

Lemma str_in_refl (s : string) : str_in s s = true.
Proof. apply str_in_prefix, prefix_refl. Qed.

Lemma prefix_append (a b : string) :
  prefix a b = true <-> exists post, b = String.append a post.
Proof.
  revert b. induction a as [|c a IH]; intros b.
  - split; [intros _; exists b; reflexivity | destruct b; reflexivity].
  - destruct b as [|c' b]; simpl.
    + split; [discriminate | intros [post H]; discriminate].
    + destruct (ascii_dec c c') as [<-|Hne].
      * split.
        -- intros H. apply IH in H. destruct H as [post ->].
           exists post. reflexivity.
        -- intros [post H]. inversion H. apply IH. eauto.
      * split; [discriminate | intros [post H]; inversion H; congruence].
Qed.

(** [str_in a b] holds exactly when [b] is [a] with something before and
    something after it: the meaning of [a in b] on Python strings. *)
Lemma str_in_spec (a b : string) :
  str_in a b = true <->
  exists pre post, b = String.append pre (String.append a post).
Proof.
  induction b as [|c b IH].
  - unfold str_in. destruct (prefix a "") eqn:E.
    + split; [intros _ | reflexivity].
      apply prefix_append in E. destruct E as [post E].
      exists "", post. exact E.
    + split; [discriminate|]. intros [pre [post H]].
      destruct pre; [|discriminate]. simpl in H.
      assert (prefix a "" = true) by (apply prefix_append; eauto).
      congruence.
  - unfold str_in; fold str_in. destruct (prefix a (String c b)) eqn:E.
    + split; [intros _ | reflexivity].
      apply prefix_append in E. destruct E as [post E].
      exists "", post. exact E.
    + rewrite IH. split.
      * intros [pre [post H]]. exists (String c pre), post.
        simpl. now rewrite H.
      * intros [pre [post H]]. destruct pre as [|c' pre].
        -- simpl in H.
           assert (prefix a (String c b) = true)
             by (apply prefix_append; eauto).
           congruence.
        -- simpl in H. inversion H. eauto.
Qed.

Example str_in_inside : str_in "Min" "NormalizeMinMax" = true.
Proof. reflexivity. Qed.

Example str_in_empty : str_in "" "Moments" = true.
Proof. reflexivity. Qed.

Example str_in_longer : str_in "NormalizeMinMax" "Normalize" = false.
Proof. reflexivity. Qed.

Example str_in_scattered : str_in "Nmz" "Normalize" = false.
Proof. reflexivity. Qed.

Section DictFacts.
Variable V : Type.

End DictFacts.

Example py_getitem_last : py_getitem [10; 20; 30] (-1) = OK 30.
Proof. reflexivity. Qed.

Example py_getitem_past_end : py_getitem [10; 20; 30] 3 = Raise IndexError.
Proof. reflexivity. Qed.

Example py_getitem_before_start :
  py_getitem [10; 20; 30] (-4) = Raise IndexError.
Proof. reflexivity. Qed.

Example py_range_2_5 : py_range 2 5 = [2; 3; 4]%Z.
Proof. reflexivity. Qed.

Example py_range_backwards : py_range 3 1 = [].
Proof. reflexivity. Qed.

Example list_remove_first_only :
  list_remove string_dec "a" ["b"; "a"; "c"; "a"] = OK ["b"; "c"; "a"].
Proof. reflexivity. Qed.

Example list_remove_absent :
  list_remove string_dec "z" ["b"; "a"] = Raise ValueError.
Proof. reflexivity. Qed.

(** The pruning loop of [_create_final_col_refs] has enough fuel: more
    does not change its result. *)
Lemma prune_loop_fuel fuel : forall i refs deps k,
  List.length refs <= i + fuel ->
  prune_loop (fuel + k) i refs deps = prune_loop fuel i refs deps.
Proof.
  induction fuel as [|fuel IH]; intros i refs deps k Hlen.
  - assert (Hnone : nth_error refs i = None) by (apply nth_error_None; lia).
    destruct k; simpl; [reflexivity|]. now rewrite Hnone.
  - simpl. destruct (nth_error refs i) as [x|] eqn:E; [|reflexivity].
    destruct (py_in string_dec x deps).
    + apply IH. apply nth_error_In in E.
      pose proof (remove_first_length string_dec x refs E). lia.
    + apply IH. lia.
Qed.

(** ** General facts on lists *)

Lemma filter_all {A : Type} (f : A -> bool) (l : list A) :
  (forall x, In x l -> f x = true) -> filter f l = l.
Proof.
  induction l as [|a l IH]; simpl; intros H; [reflexivity|].
  rewrite (H a (or_introl eq_refl)). f_equal. apply IH. intros; apply H; now right.
Qed.

Lemma filter_none {A : Type} (f : A -> bool) (l : list A) :
  (forall x, In x l -> f x = false) -> filter f l = [].
Proof.
  induction l as [|a l IH]; simpl; intros H; [reflexivity|].
  rewrite (H a (or_introl eq_refl)). apply IH. intros; apply H; now right.
Qed.

Lemma filter_true_of_filter {A : Type} (f : A -> bool) (l : list A) x :
  In x (filter f l) -> f x = true.
Proof. intros H. apply filter_In in H. tauto. Qed.

(** ** Reordering *)

Lemma reorder_phase_filter phase : forall cat cont np,
  reorder_phase phase cat cont np =
  (cat ++ filter is_cat_stat phase, cont ++ filter is_cont_stat phase,
   np ++ filter stays phase).
Proof.
  induction phase as [|t phase IH]; intros cat cont np; simpl.
  - now rewrite !app_nil_r.
  - unfold is_cat_stat, is_cont_stat, stays, hoistable.
    destruct (is_stat (task_op t)) eqn:Es; simpl.
    + destruct (deps_is_base (task_deps t)); simpl.
      * destruct (String.eqb (task_cols t) "categorical"); simpl;
          rewrite IH, <- ?app_assoc; reflexivity.
      * rewrite IH, <- ?app_assoc; reflexivity.
    + destruct (is_transform (task_op t)); simpl;
        rewrite IH, <- ?app_assoc; reflexivity.
Qed.

Lemma reorder_loop_filter ps : forall cat cont nps,
  reorder_loop ps cat cont nps =
  (cat ++ filter is_cat_stat (List.concat ps),
   cont ++ filter is_cont_stat (List.concat ps),
   nps ++ embedded_phases ps).
Proof.
  unfold embedded_phases.
  induction ps as [|p ps IH]; intros cat cont nps; simpl.
  - now rewrite !app_nil_r.
  - rewrite reorder_phase_filter. simpl. rewrite IH.
    rewrite !filter_app, <- !app_assoc.
    destruct (filter stays p); simpl; rewrite <- ?app_assoc; reflexivity.
Qed.

(** The closed form of the reordered phase list. *)
Lemma reordered_closed_form ps :
  reordered ps =
  opt_phase (filter is_cat_stat (List.concat ps))
    ++ opt_phase (filter is_cont_stat (List.concat ps))
    ++ embedded_phases ps.
Proof.
  unfold reordered. rewrite reorder_loop_filter. reflexivity.
Qed.

Lemma concat_opt_phase l : List.concat (opt_phase l) = l.
Proof. destruct l; simpl; [reflexivity|]. now rewrite app_nil_r. Qed.

Lemma cat_not_cont t : is_cat_stat t = true -> is_cont_stat t = false.
Proof.
  unfold is_cat_stat, is_cont_stat.
  destruct (hoistable t), (String.eqb (task_cols t) "categorical"); simpl; congruence.
Qed.

Lemma cont_not_cat t : is_cont_stat t = true -> is_cat_stat t = false.
Proof.
  unfold is_cat_stat, is_cont_stat.
  destruct (hoistable t), (String.eqb (task_cols t) "categorical"); simpl; congruence.
Qed.

Lemma cat_not_stays t : is_cat_stat t = true -> stays t = false.
Proof.
  unfold is_cat_stat, stays. destruct (hoistable t); simpl; congruence.
Qed.

Lemma cont_not_stays t : is_cont_stat t = true -> stays t = false.
Proof.
  unfold is_cont_stat, stays. destruct (hoistable t); simpl; congruence.
Qed.

Lemma stays_not_hoistable t : stays t = true -> hoistable t = false.
Proof. unfold stays. destruct (hoistable t); simpl; congruence. Qed.

Lemma stays_not_cat t : stays t = true -> is_cat_stat t = false.
Proof.
  intros H. unfold is_cat_stat. now rewrite (stays_not_hoistable _ H).
Qed.

Lemma stays_not_cont t : stays t = true -> is_cont_stat t = false.
Proof.
  intros H. unfold is_cont_stat. now rewrite (stays_not_hoistable _ H).
Qed.

Lemma embedded_phases_stay ps p t :
  In p (embedded_phases ps) -> In t p -> stays t = true.
Proof.
  unfold embedded_phases. intros Hp Ht.
  apply filter_In in Hp. destruct Hp as [Hp _].
  apply in_map_iff in Hp. destruct Hp as [q [<- _]].
  eapply filter_true_of_filter; eauto.
Qed.

Lemma embedded_phases_nonempty ps p :
  In p (embedded_phases ps) -> is_empty p = false.
Proof.
  unfold embedded_phases. intros Hp. apply filter_In in Hp.
  destruct Hp as [_ Hp]. now destruct (is_empty p).
Qed.

Lemma concat_embedded_stay ps t :
  In t (List.concat (embedded_phases ps)) -> stays t = true.
Proof.
  intros H. apply in_concat in H. destruct H as [p [Hp Ht]].
  eapply embedded_phases_stay; eauto.
Qed.

Lemma embedded_phases_fixed qs :
  (forall p, In p qs -> is_empty p = false) ->
  (forall p t, In p qs -> In t p -> stays t = true) ->
  embedded_phases qs = qs.
Proof.
  unfold embedded_phases.
  induction qs as [|q qs IH]; intros Hne Hst; simpl; [reflexivity|].
  rewrite (filter_all stays q) by (intros; eapply Hst; [now left | assumption]).
  rewrite (Hne q (or_introl eq_refl)). simpl. f_equal.
  apply IH; intros; [apply Hne | eapply Hst]; eauto; now right.
Qed.

Lemma embedded_phases_app ps qs :
  embedded_phases (ps ++ qs) = embedded_phases ps ++ embedded_phases qs.
Proof. unfold embedded_phases. now rewrite map_app, filter_app. Qed.

Lemma embedded_opt_phase_none l :
  (forall t, In t l -> stays t = false) -> embedded_phases (opt_phase l) = [].
Proof.
  intros H. unfold embedded_phases, opt_phase.
  destruct l as [|a l]; [reflexivity|].
  cbn [is_empty map]. rewrite (filter_none stays (a :: l)) by assumption.
  reflexivity.
Qed.

Lemma filter_cat_reordered ps :
  filter is_cat_stat (List.concat (reordered ps)) =
  filter is_cat_stat (List.concat ps).
Proof.
  rewrite reordered_closed_form, !concat_app, !concat_opt_phase, !filter_app.
  rewrite (filter_all is_cat_stat (filter is_cat_stat _))
    by (intros x Hx; eapply filter_true_of_filter; eauto).
  rewrite (filter_none is_cat_stat (filter is_cont_stat _))
    by (intros x Hx; apply cont_not_cat; eapply filter_true_of_filter; eauto).
  rewrite (filter_none is_cat_stat (List.concat (embedded_phases ps)))
    by (intros x Hx; apply stays_not_cat; eapply concat_embedded_stay; eauto).
  now rewrite !app_nil_r.
Qed.

Lemma filter_cont_reordered ps :
  filter is_cont_stat (List.concat (reordered ps)) =
  filter is_cont_stat (List.concat ps).
Proof.
  rewrite reordered_closed_form, !concat_app, !concat_opt_phase, !filter_app.
  rewrite (filter_none is_cont_stat (filter is_cat_stat _))
    by (intros x Hx; apply cat_not_cont; eapply filter_true_of_filter; eauto).
  rewrite (filter_all is_cont_stat (filter is_cont_stat _))
    by (intros x Hx; eapply filter_true_of_filter; eauto).
  rewrite (filter_none is_cont_stat (List.concat (embedded_phases ps)))
    by (intros x Hx; apply stays_not_cont; eapply concat_embedded_stay; eauto).
  now rewrite !app_nil_r.
Qed.

Lemma embedded_reordered ps :
  embedded_phases (reordered ps) = embedded_phases ps.
Proof.
  rewrite reordered_closed_form, !embedded_phases_app.
  rewrite !embedded_opt_phase_none.
  - simpl. apply embedded_phases_fixed.
    + apply embedded_phases_nonempty.
    + apply embedded_phases_stay.
  - intros t Ht. apply cont_not_stays. eapply filter_true_of_filter; eauto.
  - intros t Ht. apply cat_not_stays. eapply filter_true_of_filter; eauto.
Qed.

(** C7. The reordering pass is idempotent: reordering a phase list that has
    already been reordered gives back the same phases, with the same tasks
    in the same order.  Stated on the workflow object: [reorder_tasks]
    applied twice leaves the same workflow as [reorder_tasks] applied
    once. *)
Theorem reorder_tasks_idempotent (self : Workflow) :
  reorder_tasks (reorder_tasks self) = reorder_tasks self.
Proof.
  unfold reorder_tasks, set_phases. cbn [phases columns_ctx stats config warnings _base_phase].
  f_equal.
  rewrite (reordered_closed_form (reordered (phases self))).
  rewrite filter_cat_reordered, filter_cont_reordered, embedded_reordered.
  symmetry. apply reordered_closed_form.
Qed.

Lemma stat_not_transform op : is_stat op = true -> is_transform op = false.
Proof. unfold is_stat, is_transform. destruct (kind op); congruence. Qed.

(** C8. After the reordering pass the phase list reads: one phase with
    the statistic tasks that depend on [base] alone and target the
    categorical group, then one phase with the other statistic tasks that
    depend on [base] alone (the continuous group among them), then the
    original phases in their order, each reduced to its transforms and to
    the statistic tasks that depend on a transform; a phase that would be
    empty is left out.  Every statistic task depending on [base] alone is in
    the leading phase of its group, the leading phases hold nothing else
    (no transform in particular), no such task is left in a later phase, and a transform or a
    transform-dependent statistic task of an original phase is found in the
    reduced copy of that phase. *)
Theorem reorder_tasks_hoists (self : Workflow) :
  let ps := phases self in
  let cat := filter is_cat_stat (List.concat ps) in
  let cont := filter is_cont_stat (List.concat ps) in
  phases (reorder_tasks self) =
    opt_phase cat ++ opt_phase cont ++ embedded_phases ps
  /\ (forall t, In t (List.concat ps) -> hoistable t = true ->
        if String.eqb (task_cols t) "categorical"
        then In t cat else In t cont)
  /\ (forall t, In t cat ->
        hoistable t = true /\ task_cols t = "categorical")
  /\ (forall t, In t cont ->
        hoistable t = true /\ task_cols t <> "categorical")
  /\ (forall t, In t cat \/ In t cont -> is_transform (task_op t) = false)
  /\ (forall p t, In p (embedded_phases ps) -> In t p ->
        hoistable t = false)
  /\ (forall p t, In p ps -> In t p -> hoistable t = false ->
        is_stat (task_op t) || is_transform (task_op t) = true ->
        In (filter stays p) (embedded_phases ps) /\ In t (filter stays p)).
Proof.
  intros ps cat cont. repeat split.
  - apply reordered_closed_form.
  - intros t Ht Hh. destruct (String.eqb (task_cols t) "categorical") eqn:E;
      apply filter_In; (split; [assumption|]);
      unfold is_cat_stat, is_cont_stat; rewrite Hh, E; reflexivity.
  - apply filter_In in H. destruct H as [_ H].
    unfold is_cat_stat in H. apply andb_true_iff in H. tauto.
  - apply filter_In in H. destruct H as [_ H].
    unfold is_cat_stat in H. apply andb_true_iff in H.
    destruct H as [_ H]. now apply String.eqb_eq.
  - apply filter_In in H. destruct H as [_ H].
    unfold is_cont_stat in H. apply andb_true_iff in H. tauto.
  - apply filter_In in H. destruct H as [_ H].
    unfold is_cont_stat in H. apply andb_true_iff in H.
    destruct H as [_ H]. apply negb_true_iff in H. now apply String.eqb_neq.
  - intros t [H|H]; apply filter_In in H; destruct H as [_ H];
      apply andb_true_iff in H; destruct H as [H _];
      apply andb_true_iff in H; destruct H as [H _];
      now apply stat_not_transform.
  - intros p t Hp Ht. apply stays_not_hoistable.
    eapply embedded_phases_stay; eauto.
  - unfold embedded_phases. apply filter_In. split.
    + apply in_map. assumption.
    + assert (Hin : In t (filter stays p)).
      { apply filter_In. split; [assumption|]. unfold stays.
        rewrite H1, H2. reflexivity. }
      destruct (filter stays p); [contradiction | reflexivity].
  - apply filter_In. split; [assumption|]. unfold stays.
    rewrite H1, H2. reflexivity.
Qed.

(** ** Task graph builder *)

Lemma is_repeat_op_spec op cols master_task_list :
  _is_repeat_op op cols master_task_list = true <->
  exists task_d, In task_d master_task_list
    /\ str_in (_id op) (_id (task_op task_d)) = true
    /\ cols = task_cols task_d.
Proof.
  induction master_task_list as [|t l IH]; simpl.
  - split; [discriminate | intros [t [[] _]]].
  - destruct (str_in (_id op) (_id (task_op t))
              && String.eqb cols (task_cols t)) eqn:E.
    + split; [intros _ | reflexivity].
      apply andb_true_iff in E. destruct E as [E1 E2].
      apply String.eqb_eq in E2. exists t. auto.
    + rewrite IH. split.
      * intros [t' [H1 H2]]. exists t'. auto.
      * intros [t' [[<-|H1] [H2 H3]]].
        -- subst cols. rewrite H2, String.eqb_refl in E. discriminate.
        -- exists t'. auto.
Qed.

(** A candidate whose identifier and column group are those of a task of
    the master list is a repeat. *)
Lemma is_repeat_op_same_id op cols master_task_list task_d :
  In task_d master_task_list ->
  _id (task_op task_d) = _id op -> task_cols task_d = cols ->
  _is_repeat_op op cols master_task_list = true.
Proof.
  intros Hin Hid Hcols. apply is_repeat_op_spec. exists task_d.
  rewrite Hid, str_in_refl. auto.
Qed.

(** C3. [_is_repeat_op] compares identifiers with the substring test of
    Python strings.  With a master task list that holds one task, for the
    operator [NormalizeMinMax] on the continuous group, the candidate
    [Normalize] on the same group has the identifier of no task of the list;
    it is still reported as a repeat, [_build_tasks] drops it, and the
    assembled phases do not contain it. *)
Theorem is_repeat_op_drops_other_identifier :
  let master_task_list := [mkTask opNormalizeMinMax "continuous" [base] []] in
  (forall task_d, In task_d master_task_list ->
     _id (task_op task_d) <> _id opNormalize)
  /\ _is_repeat_op opNormalize "continuous" master_task_list = true
  /\ _build_tasks [("continuous", [(opNormalize, [])])] "PP" master_task_list
     = OK []
  /\ phases_of (load_config sample_workflow
                  (sample_config [Single opNormalizeMinMax] []
                     [Single opNormalize] []))
     = Some [[mkTask opNormalizeMinMax "continuous" [base] []]].
Proof.
  cbv zeta. repeat split.
  intros task_d [<-|[]]. discriminate.
Qed.

(** ** Seed phase *)

Lemma sort_loop_fuel fuel : forall i master_list nodeps k,
  List.length master_list <= i + fuel ->
  sort_loop (fuel + k) i master_list nodeps =
  sort_loop fuel i master_list nodeps.
Proof.
  induction fuel as [|fuel IH]; intros i master_list nodeps k Hlen.
  - assert (Hnone : nth_error master_list i = None)
      by (apply nth_error_None; lia).
    destruct k; simpl; [reflexivity|]. now rewrite Hnone.
  - simpl. destruct (nth_error master_list i) as [tup|] eqn:E; [|reflexivity].
    destruct (is_nodep tup).
    + apply IH. apply nth_error_In in E.
      pose proof (remove_first_length Task_eq_dec tup master_list E). lia.
    + apply IH. lia.
Qed.

(** The fuel given by [_sort_task_types] lets the loop run until the
    iterator is exhausted: more fuel does not change the result. *)
Lemma sort_task_types_complete master_list k :
  sort_loop (List.length master_list + k) 0 master_list [] =
  _sort_task_types master_list.
Proof. apply sort_loop_fuel. lia. Qed.

Lemma Task_eq_dec_refl (t : Task) : exists e, Task_eq_dec t t = left e.
Proof. destruct (Task_eq_dec t t) as [e|n]; [eauto | congruence]. Qed.

(** C4. On a master task list of two tasks of which the first is a
    no-dependency task, [_sort_task_types] returns the first task as the
    only no-dependency task and leaves the second among the remaining tasks,
    whatever the second is: removing the first task from the list moves the
    second under an index the iterator has passed, so it is never looked
    at. *)
Theorem sort_task_types_skips_next (a b : Task) :
  is_nodep a = true ->
  _sort_task_types [a; b] = ([a], [b]).
Proof.
  intros Ha. unfold _sort_task_types. simpl. rewrite Ha. simpl.
  destruct (Task_eq_dec_refl a) as [e ->]. reflexivity.
Qed.

Lemma sort_task_types_skips_next_witness :
  let a := mkTask opLogOp "continuous" [base] [] in
  let b := mkTask opFillMissing "continuous" [base] [] in
  is_nodep a = true /\ is_nodep b = true
  /\ _sort_task_types [a; b] = ([a], [b])
  /\ build_task_sets
       (_compile_dict_from_list
          (sample_config [Single opLogOp; Single opFillMissing] [] [] []))
       [] []
     = OK ([("FE", [a; b]); ("PP", [])], [a; b]).
Proof.
  cbv zeta. split; [reflexivity|]. split; [reflexivity|]. split.
  - apply sort_task_types_skips_next. reflexivity.
  - reflexivity.
Defined.

(** ** Operator-list API *)

(** C9. When the target column group of the operators has no columns
    (no target group at all, or a group of the column context whose [base]
    list is empty), [_config_add_ops] returns without raising; the workflow
    it leaves differs from the one it was called on by one more warning,
    "Did not add operators", and the configuration is the one it was. *)
Theorem config_add_ops_skips_empty_target
  (self : Workflow) (operators : ConfigEntry) (phase : string)
  (target_cols : option string) :
  _get_target_cols operators = OK target_cols ->
  (target_is_empty target_cols = true
   \/ exists t group,
        target_cols = Some t
        /\ lookup t (columns_ctx self) = Some group
        /\ lookup base group = Some (Cols [])) ->
  exists self',
    _config_add_ops self operators phase = OK self'
    /\ config self' = config self
    /\ phases self' = phases self
    /\ columns_ctx self' = columns_ctx self
    /\ stats self' = stats self
    /\ warnings self' = warnings self ++ [DidNotAddOperators operators].
Proof.
  intros Htarget Hempty.
  exists (warn (DidNotAddOperators operators) self).
  split; [|repeat split].
  unfold _config_add_ops. rewrite Htarget. simpl.
  assert (Hskip : no_target_columns (columns_ctx self) target_cols = OK true).
  { destruct Hempty as [He | [t [group [-> [Hg Hb]]]]].
    - destruct target_cols as [t|]; simpl in *; [|reflexivity].
      now rewrite He.
    - simpl. destruct (String.eqb t ""); [reflexivity|].
      rewrite Hg. unfold getitem. rewrite Hb. reflexivity. }
  rewrite Hskip. reflexivity.
Qed.

Lemma config_add_ops_skips_empty_target_witness :
  _get_target_cols (Chain [opCategorify]) = OK (Some "categorical")
  /\ exists self',
       _config_add_ops no_cat_workflow (Chain [opCategorify]) "FE" = OK self'
       /\ config self' = config no_cat_workflow
       /\ phases self' = phases no_cat_workflow
       /\ columns_ctx self' = columns_ctx no_cat_workflow
       /\ stats self' = stats no_cat_workflow
       /\ warnings self' =
          warnings no_cat_workflow
            ++ [DidNotAddOperators (Chain [opCategorify])].
Proof.
  split; [reflexivity|].
  apply (@config_add_ops_skips_empty_target no_cat_workflow
           (Chain [opCategorify]) "FE" (Some "categorical")).
  - reflexivity.
  - right. exists "categorical", [(base, Cols [])].
    repeat split; reflexivity.
Defined.

(** ** Applying the transforms *)

Section ExecutorFacts.
Variable DataFrame : Type.
Variable Dtypes : Type.
Variable apply_op :
  Operator -> DataFrame -> ColumnsCtx -> string -> list string ->
  option (dict StatValue) -> DataFrame * ColumnsCtx.
Variable _set_dtypes : DataFrame -> option Dtypes -> DataFrame.

Lemma df_is_transform op : is_df op = true -> is_transform op = true.
Proof. unfold is_df, is_transform. destruct (kind op); congruence. Qed.

Lemma run_trans_op_frame (st : ApplyState DataFrame) (task : Task) :
  let st' := run_trans_op apply_op st task in
  stats (a_self st') = stats (a_self st)
  /\ phases (a_self st') = phases (a_self st)
  /\ a_writer st' = a_writer st
  /\ a_applied st' = a_applied st ++ transforms_of [task].
Proof.
  unfold run_trans_op, transforms_of. simpl.
  destruct (is_df (task_op task)) eqn:Edf.
  - rewrite (df_is_transform _ Edf).
    destruct (apply_op _ _ _ _ _ _) as [gdf ctx]. simpl. auto.
  - destruct (is_transform (task_op task)).
    + destruct (apply_op _ _ _ _ _ _) as [gdf ctx]. simpl. auto.
    + rewrite app_nil_r. auto.
Qed.

Lemma run_trans_ops_for_phase_frame (tasks : Phase) :
  forall st : ApplyState DataFrame,
  let st' := _run_trans_ops_for_phase apply_op st tasks in
  stats (a_self st') = stats (a_self st)
  /\ phases (a_self st') = phases (a_self st)
  /\ a_writer st' = a_writer st
  /\ a_applied st' = a_applied st ++ transforms_of tasks.
Proof.
  unfold _run_trans_ops_for_phase.
  induction tasks as [|task tasks IH]; intros st; simpl.
  - unfold transforms_of. simpl. rewrite app_nil_r. auto.
  - destruct (IH (run_trans_op apply_op st task)) as [H1 [H2 [H3 H4]]].
    destruct (run_trans_op_frame st task) as [G1 [G2 [G3 G4]]].
    rewrite H1, H2, H3, H4, G1, G2, G3, G4, <- app_assoc.
    repeat split. f_equal. unfold transforms_of. simpl.
    destruct (is_transform (task_op task)); reflexivity.
Qed.

Lemma write_out_frame (st st' : ApplyState DataFrame) w dtypes :
  write_out _set_dtypes st w dtypes = OK st' ->
  a_self st' = a_self st /\ a_applied st' = a_applied st.
Proof.
  unfold write_out. intros H.
  apply bind_OK_inv in H. destruct H as [w' [_ H]].
  inversion H. simpl. auto.
Qed.

Lemma apply_ops_loop_frame indices output_path (dtypes : option Dtypes) :
  forall st st' : ApplyState DataFrame,
  apply_ops_loop apply_op _set_dtypes indices output_path dtypes st = OK st' ->
  stats (a_self st') = stats (a_self st)
  /\ phases (a_self st') = phases (a_self st)
  /\ exists selected,
       Forall2 (fun i p => py_getitem (phases (a_self st)) i = OK p)
         indices selected
       /\ a_applied st' =
          a_applied st ++ transforms_of (List.concat selected).
Proof.
  induction indices as [|i indices IH]; intros st st' H; simpl in H.
  - inversion H. subst st'. repeat split. exists []. split; [constructor|].
    unfold transforms_of. simpl. now rewrite app_nil_r.
  - apply bind_OK_inv in H. destruct H as [phase [Hphase H]].
    apply bind_OK_inv in H. destruct H as [st1 [Hw H]].
    destruct (run_trans_ops_for_phase_frame phase st) as [R1 [R2 [R3 R4]]].
    cbv zeta in R1, R2, R3, R4.
    set (st0 := _run_trans_ops_for_phase apply_op st phase) in *.
    assert (Hst1 : a_self st1 = a_self st0 /\ a_applied st1 = a_applied st0).
    { destruct ((i =? Z.of_nat (List.length (phases (a_self st0))) - 1)%Z
                && can_write (a_writer st0) output_path).
      - destruct (a_writer st0) as [w|].
        + eapply write_out_frame; eauto.
        + inversion Hw. auto.
      - inversion Hw. auto. }
    destruct Hst1 as [S1 S2].
    destruct (IH _ _ H) as [I1 [I2 [selected [I3 I4]]]].
    rewrite S1 in I1, I2, I3. rewrite R2 in I3.
    split; [congruence|]. split; [congruence|].
    exists (phase :: selected). split.
    + constructor; assumption.
    + rewrite I4, S2, R4, <- app_assoc. f_equal.
      unfold transforms_of. simpl. now rewrite map_app, filter_app.
Qed.

(** C10. When [apply_ops] returns, the statistics store and the phase
    list of the workflow are the ones it was called with, and the
    operators whose [apply_op] was called are, in order, the operators of
    the selected phases that are instances of [TransformOperator]
    ([DFOperator] included); the tasks of a statistic operator are passed
    over. *)
Theorem apply_ops_only_transforms
  (self : Workflow) (gdf : DataFrame) (start_phase end_phase : option Z)
  (writer : option (Writer DataFrame)) (output_path : option string)
  (dtypes : option Dtypes) (st : ApplyState DataFrame) :
  apply_ops apply_op _set_dtypes self gdf start_phase end_phase writer
    output_path dtypes = OK st ->
  stats (a_self st) = stats self
  /\ phases (a_self st) = phases self
  /\ Forall (fun op => is_transform op = true /\ is_stat op = false)
       (a_applied st)
  /\ exists selected,
       Forall2 (fun i p => py_getitem (phases self) i = OK p)
         (py_range (int_or start_phase 0)
            (int_or end_phase (Z.of_nat (List.length (phases self)))))
         selected
       /\ a_applied st = transforms_of (List.concat selected).
Proof.
  unfold apply_ops. intros H.
  apply apply_ops_loop_frame in H. simpl in H.
  destruct H as [H1 [H2 [selected [H3 H4]]]].
  split; [assumption|]. split; [assumption|]. split.
  - rewrite H4. apply Forall_forall. intros op Hop.
    apply filter_In in Hop. destruct Hop as [_ Hop]. split; [assumption|].
    unfold is_transform, is_stat in *. destruct (kind op); congruence.
  - exists selected. auto.
Qed.

Lemma py_getitem_in_range {A : Type} (l : list A) (i : nat) :
  i < List.length l -> exists x, py_getitem l (Z.of_nat i) = OK x.
Proof.
  intros Hi. unfold py_getitem. cbv zeta.
  assert (H0 : (Z.of_nat i <? 0)%Z = false) by (apply Z.ltb_ge; lia).
  rewrite H0, H0, Nat2Z.id.
  destruct (nth_error l i) as [x|] eqn:E.
  - exists x. reflexivity.
  - apply nth_error_None in E. lia.
Qed.

Lemma apply_ops_loop_returns indices output_path (dtypes : option Dtypes) :
  forall st : ApplyState DataFrame,
  a_writer st = None ->
  Forall (fun i => exists n, i = Z.of_nat n
                     /\ n < List.length (phases (a_self st))) indices ->
  exists st',
    apply_ops_loop apply_op _set_dtypes indices output_path dtypes st = OK st'.
Proof.
  induction indices as [|i indices IH]; intros st Hw Hall; simpl; [eauto|].
  inversion Hall as [|? ? [n [-> Hn]] Hrest]; subst.
  destruct (py_getitem_in_range (phases (a_self st)) Hn) as [phase ->].
  simpl.
  destruct (run_trans_ops_for_phase_frame phase st) as [_ [R2 [R3 _]]].
  cbv zeta in R2, R3.
  set (st0 := _run_trans_ops_for_phase apply_op st phase) in *.
  rewrite R3, Hw. unfold can_write. rewrite andb_false_r. simpl.
  apply IH.
  - now rewrite R3.
  - rewrite R2. assumption.
Qed.

(** Called with its default arguments (all phases, no writer), [apply_ops]
    returns. *)
Lemma apply_ops_returns (self : Workflow) (gdf : DataFrame)
  (output_path : option string) (dtypes : option Dtypes) :
  exists st,
    apply_ops apply_op _set_dtypes self gdf None None None output_path dtypes
    = OK st.
Proof.
  unfold apply_ops. apply apply_ops_loop_returns; [reflexivity|].
  simpl. unfold py_range. apply Forall_forall. intros i Hi.
  apply in_map_iff in Hi. destruct Hi as [n [<- Hn]].
  apply in_seq in Hn. exists n. split; [lia|]. lia.
Qed.

End ExecutorFacts.

Lemma apply_ops_only_transforms_witness :
  exists st,
    apply_ops toy_apply_op toy_set_dtypes stats_workflow [] None None None
      None None = OK st
    /\ a_gdf st = ["ZScore"; "LogOp"]
    /\ stats (a_self st) = stats stats_workflow
    /\ phases (a_self st) = phases stats_workflow
    /\ Forall (fun op => is_transform op = true /\ is_stat op = false)
         (a_applied st).
Proof.
  eexists. split; [reflexivity|]. split; [reflexivity|].
  pose proof (@apply_ops_only_transforms (list string) unit toy_apply_op
                toy_set_dtypes stats_workflow [] None None None None None _
                eq_refl) as H.
  destruct H as [H1 [H2 [H3 _]]]. auto.
Defined.

(** ** Scenarios of phase assembly *)

Arguments Task_eq_dec : simpl never.
Arguments Operator_eq_dec : simpl never.
Arguments string_dec : simpl never.

Lemma py_in_single (x y : string) :
  py_in string_dec x [y] = if string_dec y x then true else false.
Proof.
  unfold py_in. simpl.
  destruct (string_dec y x) as [e|n]; reflexivity.
Qed.

Lemma string_dec_refl (s : string) : exists e, string_dec s s = left e.
Proof. destruct (string_dec s s) as [e|n]; [eauto | congruence]. Qed.

Lemma Operator_eq_dec_refl (op : Operator) :
  exists e, Operator_eq_dec op op = left e.
Proof. destruct (Operator_eq_dec op op) as [e|n]; [eauto | congruence]. Qed.

(** [_create_final_col_refs] writes the column context only. *)
Lemma create_final_col_refs_phases self task_sets self' :
  _create_final_col_refs self task_sets = OK self' ->
  phases self' = phases self.
Proof.
  unfold _create_final_col_refs.
  destruct (has_key "final" (columns_ctx self)).
  - intros H. inversion H. reflexivity.
  - intros H.
    apply bind_OK_inv in H. destruct H as [pp [_ H]].
    apply bind_OK_inv in H. destruct H as [label_ctx [_ H]].
    apply bind_OK_inv in H. destruct H as [label [_ H]].
    inversion H. reflexivity.
Qed.

Lemma final_label_loop_cols ctxs : forall label,
  Forall (fun e => exists names, e = Cols names) ctxs ->
  exists label', final_label_loop ctxs label = OK label'.
Proof.
  induction ctxs as [|e ctxs IH]; intros label Hall; simpl; [eauto|].
  inversion Hall as [|? ? [names ->] Hrest]; subst.
  destruct (is_empty label); apply IH; assumption.
Qed.

(** [_create_final_col_refs] returns when there is a task set ["PP"] and
    the label group of the column context holds lists of column names. *)
Lemma create_final_col_refs_returns self task_sets pp label_ctx :
  lookup "PP" task_sets = Some pp ->
  lookup "label" (columns_ctx self) = Some label_ctx ->
  Forall (fun e => exists names, e = Cols names) (values label_ctx) ->
  exists self', _create_final_col_refs self task_sets = OK self'.
Proof.
  intros Hpp Hlabel Hcols. unfold _create_final_col_refs.
  destruct (has_key "final" (columns_ctx self)); [eauto|].
  unfold getitem. rewrite Hpp, Hlabel. simpl.
  destruct (final_label_loop_cols [] Hcols) as [label ->]. simpl. eauto.
Qed.

(** The phases [load_dep_config] leaves, from the results of its steps. *)
Lemma load_dep_config_phases self config task_sets master_task_list
  baseline leftovers phases1 pp label_ctx :
  build_task_sets config [] [] = OK (task_sets, master_task_list) ->
  _sort_task_types master_task_list = (baseline, leftovers) ->
  _phase_creator
    (if is_empty baseline then phases self else phases self ++ [baseline])
    leftovers = OK phases1 ->
  lookup "PP" task_sets = Some pp ->
  lookup "label" (columns_ctx self) = Some label_ctx ->
  Forall (fun e => exists names, e = Cols names) (values label_ctx) ->
  phases_of (load_dep_config self config) = Some phases1.
Proof.
  intros Hb Hs Hp Hpp Hlabel Hcols. unfold load_dep_config.
  rewrite Hb. simpl. rewrite Hs, Hp. simpl.
  destruct (@create_final_col_refs_returns (set_phases phases1 self)
              task_sets pp label_ctx Hpp Hlabel Hcols) as [self' H].
  rewrite H. simpl. apply create_final_col_refs_phases in H.
  rewrite H. reflexivity.
Qed.

(** The column context [Workflow_init] builds has a label group of
    column names. *)
Lemma Workflow_init_label cat_names cont_names label_name self :
  Workflow_init cat_names cont_names label_name None = OK self ->
  phases self = []
  /\ lookup "label" (columns_ctx self) = Some [(base, Cols label_name)].
Proof. intros H. inversion H. simpl. auto. Qed.

Example sample_workflow_init :
  Workflow_init ["c"] ["x"] ["y"] None = OK sample_workflow.
Proof. reflexivity. Qed.

Example no_cat_workflow_init :
  Workflow_init [] ["x"] ["y"] None = OK no_cat_workflow.
Proof. reflexivity. Qed.

(** Evaluation of the assembly on operators whose identifiers are not
    known: every comparison of two identifiers is split in two cases. *)
Ltac split_dec :=
  match goal with
  | |- context [string_dec ?a ?b] =>
      destruct (string_dec a b); try congruence
  | |- context [Task_eq_dec ?a ?b] =>
      destruct (Task_eq_dec a b); try congruence
  | |- context [Operator_eq_dec ?a ?b] =>
      destruct (Operator_eq_dec a b); try congruence
  end.

Ltac crunch :=
  repeat (simpl; unfold py_in, is_nodep, list_remove; simpl;
          try reflexivity; split_dec).

Lemma chain_of_three_sorted (A B C : Operator) (cols : string) :
  _id B <> base ->
  _sort_task_types
    [ mkTask A cols [base] []; mkTask B cols [_id A] [];
      mkTask C cols [_id B] [] ]
  = ([mkTask A cols [base] []],
     [mkTask B cols [_id A] []; mkTask C cols [_id B] []]).
Proof. intros HB. unfold _sort_task_types. crunch. Qed.

Lemma chain_of_three_placed (A B C : Operator) (cols : string) :
  _phase_creator [[mkTask A cols [base] []]]
    [mkTask B cols [_id A] []; mkTask C cols [_id B] []]
  = OK [[ mkTask A cols [base] []; mkTask B cols [_id A] [];
          mkTask C cols [_id B] [] ]].
Proof. unfold _phase_creator, place_task. crunch. Qed.

Lemma build_target_no_stats cols dep_tasks op dep_grp :
  requires_no_stats op ->
  build_target cols [] dep_tasks (op, dep_grp)
  = OK (dep_tasks ++ [mkTask op cols (or_base dep_grp) []]).
Proof.
  intros [Hs Hr]. unfold build_target.
  destruct op as [o i k d r]. simpl in *.
  destruct r as [reqs|]; [subst reqs|].
  - destruct k; simpl; reflexivity.
  - destruct k; try discriminate; reflexivity.
Qed.

(** C5 (as amended). A configuration whose only entry is the chain
    [[A, B, C]] on the categorical group (of either stage), where [A], [B],
    [C] are not statistic operators and require no statistics and the
    identifier of [B] is not the sentinel [base], loaded into a workflow
    fresh from its constructor: phase assembly returns, with exactly one
    phase, holding the tasks of [A], [B], [C] in this order. *)
Theorem chain_of_three_single_phase
  (A B C : Operator) (cat_names cont_names label_name : list string)
  (self : Workflow) (cfg : Config) :
  requires_no_stats A -> requires_no_stats B -> requires_no_stats C ->
  _id B <> base ->
  Workflow_init cat_names cont_names label_name None = OK self ->
  cfg = sample_config [] [Chain [A; B; C]] [] []
  \/ cfg = sample_config [] [] [] [Chain [A; B; C]] ->
  phases_of (load_config self cfg) =
  Some [[ mkTask A "categorical" [base] [];
          mkTask B "categorical" [_id A] [];
          mkTask C "categorical" [_id B] [] ]].
Proof.
  intros HA HB HC HidB Hinit Hcfg.
  destruct (Workflow_init_label Hinit) as [Hph Hlabel].
  set (tasks := [ mkTask A "categorical" [base] [];
                  mkTask B "categorical" [_id A] [];
                  mkTask C "categorical" [_id B] [] ]).
  assert (Hbuild : exists task_sets pp,
             build_task_sets (_compile_dict_from_list cfg) [] []
             = OK (task_sets, tasks)
             /\ lookup "PP" task_sets = Some pp).
  { unfold tasks. clear Hinit Hph Hlabel.
    destruct Hcfg; subst cfg; cbn -[build_target];
      repeat (rewrite build_target_no_stats by assumption;
              cbn -[build_target]);
      do 2 eexists; split; reflexivity. }
  destruct Hbuild as [task_sets [pp [Hbuild Hpp]]].
  unfold load_config.
  eapply load_dep_config_phases; eauto.
  - apply chain_of_three_sorted. assumption.
  - rewrite Hph. simpl. apply chain_of_three_placed.
  - simpl. constructor; [eauto | constructor].
Qed.

Lemma chain_of_three_single_phase_witness :
  requires_no_stats opLogOp /\ _id opFillMissing <> base
  /\ phases_of (load_config sample_workflow
                  (sample_config []
                     [Chain [opLogOp; opFillMissing; opNormalize]] [] []))
     = Some [[ mkTask opLogOp "categorical" [base] [];
               mkTask opFillMissing "categorical" ["LogOp"] [];
               mkTask opNormalize "categorical" ["FillMissing"] [] ]].
Proof.
  split; [split; reflexivity|]. split; [discriminate|].
  apply (@chain_of_three_single_phase opLogOp opFillMissing opNormalize
           ["c"] ["x"] ["y"] sample_workflow _).
  - split; reflexivity.
  - split; reflexivity.
  - split; reflexivity.
  - discriminate.
  - reflexivity.
  - left. reflexivity.
Defined.

(** The claim C5 as it stands fails when the middle operator of the chain
    has the identifier [base]: the dependency of the third task is then the
    sentinel, the third task passes the no-dependency test and goes to the
    seed phase with the first, and the second task is placed after them.
    The single phase holds the tasks in the order [A], [C], [B]. *)
Lemma chain_around_operator_named_base :
  requires_no_stats opLogOp /\ requires_no_stats opNamedBase
  /\ requires_no_stats opFillMissing
  /\ phases_of (load_config sample_workflow base_named_chain_config)
     = Some [[ mkTask opLogOp "categorical" [base] [];
               mkTask opFillMissing "categorical" ["base"] [];
               mkTask opNamedBase "categorical" ["LogOp"] [] ]]
  /\ phases_of (load_config sample_workflow base_named_chain_config)
     <> Some [[ mkTask opLogOp "categorical" [base] [];
                mkTask opNamedBase "categorical" [_id opLogOp] [];
                mkTask opFillMissing "categorical" [_id opNamedBase] [] ]].
Proof.
  split; [split; reflexivity|]. split; [split; reflexivity|].
  split; [split; reflexivity|]. split; [reflexivity|].
  intros H. vm_compute in H. discriminate H.
Qed.

Arguments str_in : simpl never.

Ltac crunch_ids :=
  repeat (simpl; unfold py_in, is_nodep, list_remove; simpl;
          rewrite ?str_in_refl; simpl;
          try reflexivity; split_dec).

(** What the code does for a statistic and a transform that requires it.
    A configuration that declares, on the continuous group and outside any
    chain, a statistic operator [S] and a transform [T] whose required
    statistics are [[S]], loaded into a workflow fresh from its constructor:
    phase assembly returns, with exactly two phases; phase 0 holds the task
    of [S] and nothing else (the task is there twice when [S] is declared in
    the same stage as [T], once by the declaration and once for [T]), and
    phase 1 holds the task of [T] alone.  The one arrangement left out is
    [S] in the first stage and [T] in the second with the identifier of [T]
    inside that of [S]. *)
Lemma stat_then_dependent_transform
  (S T : Operator) (fe pp : list ConfigEntry)
  (cat_names cont_names label_name : list string) (self : Workflow) :
  kind S = StatOperator -> req_stats S = None ->
  kind T = DFOperator -> req_stats T = Some [S] ->
  declares_stat_and_transform S T fe pp ->
  Workflow_init cat_names cont_names label_name None = OK self ->
  let tS := mkTask S "continuous" [base] [] in
  let tT := mkTask T "continuous" [base] [S] in
  exists phase0,
    phases_of (load_config self (sample_config fe [] pp []))
    = Some [phase0; [tT]]
    /\ (phase0 = [tS] \/ phase0 = [tS; tS]).
Proof.
  intros HkS HrS HkT HrT Hdecl Hinit tS tT.
  destruct (Workflow_init_label Hinit) as [Hph Hlabel].
  assert (Hmaster : exists task_sets pp' master_task_list,
             build_task_sets
               (_compile_dict_from_list (sample_config fe [] pp [])) [] []
             = OK (task_sets, master_task_list)
             /\ lookup "PP" task_sets = Some pp'
             /\ In master_task_list [[tS; tT]; [tS; tS; tT]; [tS; tT; tS]]).
  { unfold tS, tT. clear Hinit Hph Hlabel tS tT.
    destruct S as [oS iS kS dS rS]. destruct T as [oT iT kT dT rT].
    simpl in *. subst kS rS kT rT.
    destruct Hdecl as [Hdecl | [Hdecl Hsub]].
    - simpl in Hdecl.
      repeat (destruct Hdecl as [Hdecl | Hdecl];
              [inversion Hdecl; subst fe pp;
               do 3 eexists;
               repeat (progress (cbn; rewrite ?str_in_refl));
               (split; [reflexivity|]); (split; [reflexivity|]);
               simpl; tauto|]).
      contradiction.
    - inversion Hdecl; subst fe pp. cbn in Hsub.
      do 3 eexists. repeat (progress (cbn; rewrite ?str_in_refl, ?Hsub)).
      split; [reflexivity|]. split; [reflexivity|]. simpl. tauto. }
  destruct Hmaster as [task_sets [pp' [master [Hbuild [Hpp Hmaster]]]]].
  assert (Hrun : exists phase0 baseline leftovers,
             _sort_task_types master = (baseline, leftovers)
             /\ _phase_creator
                  (if is_empty baseline then [] else [baseline]) leftovers
                = OK [phase0; [tT]]
             /\ (phase0 = [tS] \/ phase0 = [tS; tS])).
  { simpl in Hmaster.
    destruct Hmaster as [<-|[<-|[<-|[]]]]; unfold _sort_task_types.
    - exists [tS], [tS], [tT]. split; [crunch_ids|]. split; [|now left].
      unfold _phase_creator, place_task, _find_parents. crunch_ids.
    - exists [tS; tS], [tS], [tS; tT]. split; [crunch_ids|].
      split; [|now right].
      unfold _phase_creator, place_task, _find_parents. crunch_ids.
    - exists [tS; tS], [tS; tS], [tT]. split; [crunch_ids|].
      split; [|now right].
      unfold _phase_creator, place_task, _find_parents. crunch_ids. }
  destruct Hrun as [phase0 [baseline [leftovers [Hsort [Hplace Hphase0]]]]].
  exists phase0. split; [|assumption].
  unfold load_config.
  eapply load_dep_config_phases; eauto.
  - rewrite Hph. exact Hplace.
  - simpl. constructor; [eauto | constructor].
Qed.

Lemma stat_then_dependent_transform_witness :
  declares_stat_and_transform opMoments opZScore [] [Single opZScore]
  /\ exists phase0,
       phases_of (load_config sample_workflow
                    (sample_config [] [] [Single opZScore] []))
       = Some [phase0; [mkTask opZScore "continuous" [base] [opMoments]]]
       /\ (phase0 = [mkTask opMoments "continuous" [base] []]
           \/ phase0 = [mkTask opMoments "continuous" [base] [];
                        mkTask opMoments "continuous" [base] []]).
Proof.
  assert (Hdecl : declares_stat_and_transform opMoments opZScore
                    [] [Single opZScore])
    by (left; simpl; tauto).
  split; [exact Hdecl|].
  apply (@stat_then_dependent_transform opMoments opZScore
           [] [Single opZScore] ["c"] ["x"] ["y"] sample_workflow);
    try reflexivity.
  exact Hdecl.
Defined.

(** C6. The claim fails where [_is_repeat_op] takes [T] for a repeat of
    [S].  A statistic operator [S] declared in the first stage and a
    transform [T] that requires [S] declared in the second, both on the
    continuous group, the identifier of [T] occurring inside that of [S]:
    [T] gets no task, and phase assembly leaves one phase, with the task of
    [S] alone. *)
Theorem dependent_transform_taken_for_repeat
  (S T : Operator) (cat_names cont_names label_name : list string)
  (self : Workflow) :
  is_stat S = true -> req_stats S = None ->
  kind T = DFOperator -> req_stats T = Some [S] ->
  str_in (_id T) (_id S) = true ->
  Workflow_init cat_names cont_names label_name None = OK self ->
  phases_of (load_config self (sample_config [Single S] [] [Single T] []))
  = Some [[mkTask S "continuous" [base] []]].
Proof.
  intros HkS HrS HkT HrT Hsub Hinit.
  destruct (Workflow_init_label Hinit) as [Hph Hlabel].
  set (tS := mkTask S "continuous" [base] []).
  assert (Hbuild : exists task_sets pp',
             build_task_sets
               (_compile_dict_from_list
                  (sample_config [Single S] [] [Single T] [])) [] []
             = OK (task_sets, [tS])
             /\ lookup "PP" task_sets = Some pp').
  { unfold tS. clear Hinit Hph Hlabel tS.
    destruct S as [oS iS kS dS rS]. destruct T as [oT iT kT dT rT].
    unfold is_stat in HkS. simpl in *. subst rS kT rT.
    destruct kS; try discriminate;
      do 2 eexists; repeat (progress (cbn; rewrite ?str_in_refl, ?Hsub));
      split; reflexivity. }
  destruct Hbuild as [task_sets [pp' [Hbuild Hpp]]].
  unfold load_config.
  apply (@load_dep_config_phases self _ task_sets [tS] [tS] [] [[tS]] pp'
           [(base, Cols label_name)]).
  - exact Hbuild.
  - unfold _sort_task_types, tS. crunch_ids.
  - rewrite Hph. reflexivity.
  - exact Hpp.
  - exact Hlabel.
  - simpl. constructor; [eauto | constructor].
Qed.

Lemma dependent_transform_taken_for_repeat_witness :
  str_in (_id opZScoreOnStats) (_id opZScoreStats) = true
  /\ phases_of (load_config sample_workflow
                  (sample_config [Single opZScoreStats] []
                     [Single opZScoreOnStats] []))
     = Some [[mkTask opZScoreStats "continuous" [base] []]].
Proof.
  split; [reflexivity|].
  apply (@dependent_transform_taken_for_repeat opZScoreStats opZScoreOnStats
           ["c"] ["x"] ["y"] sample_workflow); reflexivity.
Defined.

(** ** Greedy placement *)

Lemma scan_phase_removed (phase : Phase) : forall cols_needed d,
  In d cols_needed ->
  In d (scan_phase phase cols_needed)
  \/ exists u, In u phase /\ _id (task_op u) = d.
Proof.
  induction phase as [|u phase IH]; intros c d Hd; simpl; [now left|].
  destruct (is_empty c) eqn:Ec; [now left|].
  destruct (py_in string_dec (_id (task_op u)) c) eqn:Ein.
  - destruct (string_dec d (_id (task_op u))) as [->|Hne].
    + right. exists u. split; [now left | reflexivity].
    + destruct (IH (remove_first string_dec (_id (task_op u)) c) d) as [H|H].
      * apply remove_first_other; assumption.
      * now left.
      * right. destruct H as [v [Hv Hid]]. exists v. split; [now right|assumption].
  - destruct (IH c d Hd) as [H|H]; [now left|].
    right. destruct H as [v [Hv Hid]]. exists v. split; [now right|assumption].
Qed.

Lemma find_parents_tasks_removed op (phase : Phase) : forall ops_copy ops_copy',
  find_parents_tasks op phase ops_copy = OK ops_copy' ->
  forall x, In x ops_copy ->
    In x ops_copy'
    \/ exists u, In u phase /\ str_in (_id x) (_id (task_op u)) = true.
Proof.
  induction phase as [|u phase IH]; intros c c' H x Hx; simpl in H.
  - inversion H. subst. now left.
  - destruct (is_empty c); [inversion H; subst; now left|].
    destruct (str_in (_id op) (_id (task_op u))) eqn:Em.
    + apply bind_OK_inv in H. destruct H as [c1 [Hrm H]].
      apply list_remove_OK in Hrm. destruct Hrm as [_ ->].
      destruct (Operator_eq_dec x op) as [->|Hne].
      * right. exists u. split; [now left | assumption].
      * destruct (IH _ _ H x) as [G|G].
        -- apply remove_first_other; assumption.
        -- now left.
        -- right. destruct G as [v [Hv Hm]]. exists v. split; [now right|assumption].
    + destruct (IH _ _ H x Hx) as [G|G]; [now left|].
      right. destruct G as [v [Hv Hm]]. exists v. split; [now right|assumption].
Qed.

Lemma find_parents_phases_removed op (phases : list Phase) :
  forall ops_copy ops_copy',
  find_parents_phases op phases ops_copy = OK ops_copy' ->
  forall x, In x ops_copy ->
    In x ops_copy'
    \/ exists u, In u (List.concat phases)
         /\ str_in (_id x) (_id (task_op u)) = true.
Proof.
  induction phases as [|p phases IH]; intros c c' H x Hx; simpl in H.
  - inversion H. subst. now left.
  - destruct (is_empty c); [inversion H; subst; now left|].
    apply bind_OK_inv in H. destruct H as [c1 [Hp H]].
    destruct (find_parents_tasks_removed _ _ _ Hp x Hx) as [G|G].
    + destruct (IH _ _ H x G) as [G'|G']; [now left|].
      right. destruct G' as [v [Hv Hm]]. exists v. split; [|assumption].
      simpl. apply in_or_app. now right.
    + right. destruct G as [v [Hv Hm]]. exists v. split; [|assumption].
      simpl. apply in_or_app. now left.
Qed.

Lemma find_parents_ops_removed (ops_list : list Operator)
  (phases : list Phase) : forall ops_copy ops_copy',
  find_parents_ops ops_list phases ops_copy = OK ops_copy' ->
  forall x, In x ops_copy ->
    In x ops_copy'
    \/ exists u, In u (List.concat phases)
         /\ str_in (_id x) (_id (task_op u)) = true.
Proof.
  induction ops_list as [|op ops IH]; intros c c' H x Hx; simpl in H.
  - inversion H. subst. now left.
  - apply bind_OK_inv in H. destruct H as [c1 [Hp H]].
    destruct (find_parents_phases_removed _ _ _ Hp x Hx) as [G|G].
    + exact (IH _ _ H x G).
    + now right.
Qed.

Lemma in_concat_firstn (k : nat) : forall (phases : list Phase) u,
  In u (List.concat (firstn k phases)) ->
  exists j p, j < k /\ nth_error phases j = Some p /\ In u p.
Proof.
  induction k as [|k IH]; intros phases u H; simpl in H.
  - contradiction.
  - destruct phases as [|p phases]; simpl in H; [contradiction|].
    apply in_app_or in H. destruct H as [H|H].
    + exists 0, p. split; [lia|]. split; [reflexivity | assumption].
    + destruct (IH _ _ H) as [j [q [Hj [Hq Hu]]]].
      exists (S j), q. split; [lia|]. split; assumption.
Qed.

(** When [_find_parents] answers [True], every operator of the list was
    found in a phase before [phase_idx]. *)
Lemma find_parents_true phases ops_list phase_idx :
  _find_parents phases ops_list phase_idx = OK true ->
  forall op, In op ops_list -> found_before phases phase_idx op.
Proof.
  unfold _find_parents. intros H op Hop.
  apply bind_OK_inv in H. destruct H as [c [Hc H]].
  inversion H as [He]. apply is_empty_true in He. subst c.
  destruct (find_parents_ops_removed _ _ _ Hc op Hop) as [G|G];
    [contradiction|].
  destruct G as [u [Hu Hm]].
  destruct (in_concat_firstn _ _ _ Hu) as [j [p [Hj [Hp Hin]]]].
  exists j, p, u. auto.
Qed.

Lemma scan_phases_joined phases task : forall rest idx cols_needed k,
  (forall i, nth_error rest i = nth_error phases (idx + i)) ->
  scan_phases phases task idx rest cols_needed = OK (Some k) ->
  idx <= k /\ k < idx + List.length rest
  /\ (forall d, In d cols_needed ->
        exists j p u, j <= k /\ nth_error phases j = Some p /\ In u p
          /\ _id (task_op u) = d)
  /\ _find_parents phases (task_parents task) k = OK true.
Proof.
  induction rest as [|phase rest IH]; intros idx c k Hrest H; simpl in H;
    [discriminate|].
  assert (Hphase : nth_error phases idx = Some phase).
  { specialize (Hrest 0). simpl in Hrest. now rewrite Nat.add_0_r in Hrest. }
  assert (Hrest' : forall i, nth_error rest i = nth_error phases (S idx + i)).
  { intros i. specialize (Hrest (S i)). simpl in Hrest.
    now rewrite Nat.add_succ_r in Hrest. }
  assert (Hrec : forall c',
    c' = scan_phase phase c ->
    scan_phases phases task (S idx) rest c' = OK (Some k) ->
    idx <= k /\ k < idx + List.length (phase :: rest)
    /\ (forall d, In d c ->
          exists j p u, j <= k /\ nth_error phases j = Some p /\ In u p
            /\ _id (task_op u) = d)
    /\ _find_parents phases (task_parents task) k = OK true).
  { intros c' Hc' Hs.
    destruct (IH _ _ _ Hrest' Hs) as [H1 [H2 [H3 H4]]].
    split; [lia|]. split; [simpl; lia|]. split; [|assumption].
    intros d Hd. destruct (scan_phase_removed phase c d Hd) as [G|G].
    - apply H3. now rewrite Hc'.
    - destruct G as [u [Hu Hid]]. exists idx, phase, u.
      split; [lia|]. auto. }
  destruct (is_empty (scan_phase phase c)) eqn:Ec.
  - apply bind_OK_inv in H. destruct H as [found [Hf H]].
    destruct found.
    + inversion H. subst k. split; [lia|]. split; [simpl; lia|].
      split; [|assumption].
      intros d Hd. destruct (scan_phase_removed phase c d Hd) as [G|G].
      * apply is_empty_true in Ec. rewrite Ec in G. contradiction.
      * destruct G as [u [Hu Hid]]. exists idx, phase, u.
        split; [lia|]. auto.
    + eapply Hrec; eauto.
  - eapply Hrec; eauto.
Qed.

Lemma extends_refl phases : extends phases phases.
Proof. intros j p H. exists p. split; [assumption | apply incl_refl]. Qed.

Lemma extends_new_phase phases p : extends phases (phases ++ [p]).
Proof.
  intros j q H. exists q. split; [|apply incl_refl].
  rewrite nth_error_app1; [assumption|].
  apply nth_error_Some. congruence.
Qed.

Lemma append_to_phase_nth task (ps : list Phase) : forall idx j,
  nth_error (append_to_phase idx task ps) j =
  if Nat.eqb j idx
  then option_map (fun p => p ++ [task]) (nth_error ps j)
  else nth_error ps j.
Proof.
  induction ps as [|p ps IH]; intros idx j; simpl.
  - destruct idx, j; simpl; try reflexivity.
    destruct (Nat.eqb _ _); reflexivity.
  - destruct idx as [|idx]; destruct j as [|j]; simpl; try reflexivity.
    apply IH.
Qed.

Lemma extends_append_to_phase phases idx task :
  extends phases (append_to_phase idx task phases).
Proof.
  intros j p H. rewrite append_to_phase_nth, H.
  destruct (Nat.eqb j idx); simpl.
  - exists (p ++ [task]). split; [reflexivity | apply incl_appl, incl_refl].
  - exists p. split; [reflexivity | apply incl_refl].
Qed.

Lemma produced_upto_extends phases phases' k d :
  extends phases phases' ->
  produced_upto phases k d -> produced_upto phases' k d.
Proof.
  intros Hext [j [p [u [Hj [Hp [Hu Hid]]]]]].
  destruct (Hext j p Hp) as [p' [Hp' Hincl]].
  exists j, p', u. auto.
Qed.

Lemma found_before_extends phases phases' k op :
  extends phases phases' ->
  found_before phases k op -> found_before phases' k op.
Proof.
  intros Hext [j [p [u [Hj [Hp [Hu Hid]]]]]].
  destruct (Hext j p Hp) as [p' [Hp' Hincl]].
  exists j, p', u. auto.
Qed.

Lemma in_concat_nth (phases : list Phase) u :
  In u (List.concat phases) <->
  exists j p, nth_error phases j = Some p /\ In u p.
Proof.
  split.
  - intros H. apply in_concat in H. destruct H as [p [Hp Hu]].
    apply In_nth_error in Hp. destruct Hp as [j Hj]. eauto.
  - intros [j [p [Hj Hu]]]. apply in_concat. exists p.
    split; [eapply nth_error_In; eauto | assumption].
Qed.

Lemma extends_concat phases phases' u :
  extends phases phases' ->
  In u (List.concat phases) -> In u (List.concat phases').
Proof.
  intros Hext H. apply in_concat_nth in H. destruct H as [j [p [Hj Hu]]].
  destruct (Hext j p Hj) as [p' [Hp' Hincl]].
  apply in_concat_nth. exists j, p'. auto.
Qed.

Lemma resolved_in_incl pool pool' t :
  incl pool pool' -> resolved_in pool t -> resolved_in pool' t.
Proof.
  intros Hincl [Hd Hp]. split.
  - intros d H1 H2. destruct (Hd d H1 H2) as [u [Hu Hid]]. exists u. auto.
  - intros op H1. destruct (Hp op H1) as [u [Hu Hid]]. exists u. auto.
Qed.

(** One step of [_phase_creator]: the task joins the first phase that
    qualifies, and then it is well placed by what the scan has checked; or
    it opens a new last phase, and then it is well placed when what it
    depends on has been placed already. *)
Lemma place_task_well_placed phases task phases' :
  well_placed phases ->
  resolved_in (List.concat phases) task ->
  place_task phases task = OK phases' ->
  well_placed phases' /\ extends phases phases'
  /\ In task (List.concat phases').
Proof.
  intros Hwp [Hdeps Hparents] H. unfold place_task in H.
  apply bind_OK_inv in H. destruct H as [added [Hscan H]].
  destruct added as [idx|]; inversion H; subst phases'; clear H.
  - (* the task joins phase [idx] *)
    apply scan_phases_joined in Hscan; [|intros i; reflexivity].
    destruct Hscan as [_ [Hlt [Hcols Hfound]]]. simpl in Hlt.
    pose proof (extends_append_to_phase phases idx task) as Hext.
    assert (Hidx : exists p, nth_error phases idx = Some p).
    { destruct (nth_error phases idx) eqn:E; [eauto|].
      apply nth_error_None in E. lia. }
    destruct Hidx as [pidx Hpidx].
    split; [|split; [assumption|]].
    + intros k p t Hk Ht.
      rewrite append_to_phase_nth in Hk.
      assert (Hold : forall q, nth_error phases k = Some q -> In t q ->
                deps_met (append_to_phase idx task phases) k t
                /\ parents_met (append_to_phase idx task phases) k t).
      { intros q Hq Hin. destruct (Hwp k q t Hq Hin) as [Hd Hp].
        split.
        - intros d H1 H2. eapply produced_upto_extends; eauto.
        - intros op H1. eapply found_before_extends; eauto. }
      destruct (Nat.eqb k idx) eqn:Ek.
      * apply Nat.eqb_eq in Ek. subst k. rewrite Hpidx in Hk.
        simpl in Hk. inversion Hk. subst p.
        apply in_app_or in Ht. destruct Ht as [Ht|[<-|[]]].
        -- eapply Hold; eauto.
        -- split.
           ++ intros d H1 H2. eapply produced_upto_extends; [exact Hext|].
              apply Hcols.
              destruct (py_in string_dec base (task_deps task));
                [apply remove_first_other|]; assumption.
           ++ intros op H1. eapply found_before_extends; [exact Hext|].
              eapply find_parents_true; eauto.
      * eapply Hold; eauto.
    + apply in_concat_nth. exists idx, (pidx ++ [task]). split.
      * rewrite append_to_phase_nth, Nat.eqb_refl, Hpidx. reflexivity.
      * apply in_or_app. right. now left.
  - (* the task opens a new last phase *)
    pose proof (extends_new_phase phases [task]) as Hext.
    split; [|split; [assumption|]].
    + intros k p t Hk Ht.
      destruct (Nat.lt_ge_cases k (List.length phases)) as [Hlt|Hge].
      * rewrite nth_error_app1 in Hk by assumption.
        destruct (Hwp k p t Hk Ht) as [Hd Hp]. split.
        -- intros d H1 H2. eapply produced_upto_extends; eauto.
        -- intros op H1. eapply found_before_extends; eauto.
      * rewrite nth_error_app2 in Hk by assumption.
        destruct (k - List.length phases) as [|m] eqn:Ekm;
          [|destruct m; discriminate].
        simpl in Hk. inversion Hk. subst p.
        destruct Ht as [<-|[]].
        assert (k = List.length phases) by lia. subst k.
        split.
        -- intros d H1 H2. destruct (Hdeps d H1 H2) as [u [Hu Hid]].
           apply in_concat_nth in Hu. destruct Hu as [j [q [Hq Hin]]].
           eapply produced_upto_extends; [exact Hext|].
           exists j, q, u. split; [|auto].
           assert (j < List.length phases)
             by (apply nth_error_Some; congruence). lia.
        -- intros op H1. destruct (Hparents op H1) as [u [Hu Hid]].
           apply in_concat_nth in Hu. destruct Hu as [j [q [Hq Hin]]].
           eapply found_before_extends; [exact Hext|].
           exists j, q, u. split; [|auto].
           apply nth_error_Some; congruence.
    + rewrite concat_app. apply in_or_app. right. simpl. now left.
Qed.

Lemma phase_creator_well_placed (task_list : list Task) :
  forall phases phases',
  well_placed phases ->
  (forall done t todo, task_list = done ++ t :: todo ->
     resolved_in (List.concat phases ++ done) t) ->
  _phase_creator phases task_list = OK phases' ->
  well_placed phases'.
Proof.
  induction task_list as [|task rest IH]; intros phases phases' Hwp Hres H;
    simpl in H.
  - inversion H. subst. assumption.
  - apply bind_OK_inv in H. destruct H as [phases1 [Hplace H]].
    destruct (@place_task_well_placed phases task phases1 Hwp)
      as [Hwp1 [Hext Hin]]; [|assumption|].
    { specialize (Hres [] task rest eq_refl).
      now rewrite app_nil_r in Hres. }
    apply (IH phases1 phases' Hwp1); [|assumption].
    intros done t todo Hsplit.
    eapply resolved_in_incl; [|apply (Hres (task :: done) t todo)].
    + intros u Hu. apply in_app_or in Hu. apply in_or_app.
      destruct Hu as [Hu|[<-|Hu]].
      * left. eapply extends_concat; eauto.
      * left. assumption.
      * now right.
    + rewrite Hsplit. reflexivity.
Qed.

(** ** Seed phase and greedy placement together *)

Lemma taken_out_refl (l : list Task) : taken_out [] l l.
Proof. induction l; constructor; assumption. Qed.

Lemma taken_out_incl removed removed' all kept :
  incl removed removed' ->
  taken_out removed all kept -> taken_out removed' all kept.
Proof.
  intros Hincl H. induction H; constructor; auto.
Qed.

Lemma taken_out_remove removed all kept x :
  taken_out removed all kept ->
  taken_out (removed ++ [x]) all (remove_first Task_eq_dec x kept).
Proof.
  intros H. induction H; simpl.
  - constructor.
  - destruct (Task_eq_dec x x0) as [<-|Hne].
    + apply taken_drop.
      * apply in_or_app. right. now left.
      * eapply taken_out_incl; [|eassumption]. apply incl_appl, incl_refl.
    + apply taken_keep. assumption.
  - apply taken_drop; [|assumption]. apply in_or_app. now left.
Qed.

(** A task that is left has, before it in the list the tasks were taken
    from, only tasks that were taken out or that are left before it. *)
Lemma taken_out_split removed all kept :
  taken_out removed all kept ->
  forall kept1 t kept2, kept = kept1 ++ t :: kept2 ->
  exists all1 all2,
    all = all1 ++ t :: all2 /\ incl all1 (removed ++ kept1).
Proof.
  intros H. induction H; intros kept1 t kept2 Hsplit.
  - destruct kept1; discriminate.
  - destruct kept1 as [|y kept1]; simpl in Hsplit; inversion Hsplit; subst.
    + exists [], all. split; [reflexivity|]. intros z [].
    + destruct (IHtaken_out kept1 t kept2 eq_refl) as [a1 [a2 [-> Hincl]]].
      exists (y :: a1), a2. split; [reflexivity|].
      intros z [<-|Hz].
      * apply in_or_app. right. now left.
      * apply Hincl in Hz. apply in_app_or in Hz. apply in_or_app.
        destruct Hz; [now left | right; now right].
  - destruct (IHtaken_out kept1 t kept2 Hsplit) as [a1 [a2 [-> Hincl]]].
    exists (x :: a1), a2. split; [reflexivity|].
    intros z [<-|Hz].
    + apply in_or_app. now left.
    + now apply Hincl.
Qed.

Lemma sort_loop_taken_out fuel : forall i master_list nodeps all N L,
  taken_out nodeps all master_list ->
  Forall (fun t => is_nodep t = true) nodeps ->
  incl nodeps all -> incl master_list all ->
  sort_loop fuel i master_list nodeps = (N, L) ->
  taken_out N all L /\ Forall (fun t => is_nodep t = true) N /\ incl N all.
Proof.
  induction fuel as [|fuel IH];
    intros i master_list nodeps all N L Ht Hn Hi1 Hi2 H; simpl in H.
  - inversion H. subst. auto.
  - destruct (nth_error master_list i) as [tup|] eqn:E;
      [|inversion H; subst; auto].
    destruct (is_nodep tup) eqn:Enodep.
    + apply nth_error_In in E.
      eapply IH; [| | | |exact H].
      * apply taken_out_remove. assumption.
      * apply Forall_app. split; [assumption|]. constructor; auto.
      * apply incl_app; [assumption|]. intros z [<-|[]]. auto.
      * intros z Hz. apply remove_first_incl in Hz. auto.
    + eapply IH; eauto.
Qed.

(** [_sort_task_types] returns no-dependency tasks of the master list
    only, and what it leaves keeps the order of the master list. *)
Lemma sort_task_types_taken_out master_list N L :
  _sort_task_types master_list = (N, L) ->
  taken_out N master_list L /\ Forall (fun t => is_nodep t = true) N
  /\ incl N master_list.
Proof.
  unfold _sort_task_types. intros H.
  eapply sort_loop_taken_out;
    [apply taken_out_refl | constructor | intros z [] | apply incl_refl
    | exact H].
Qed.

Lemma well_placed_nil : well_placed [].
Proof. intros k p t H. destruct k; discriminate. Qed.

(** A phase of tasks that depend on [base] only and have no parents can be
    added at the end. *)
Lemma well_placed_baseline (ps : list Phase) baseline :
  well_placed ps ->
  Forall (fun t => is_nodep t = true
                   /\ forall d, In d (task_deps t) -> d = base) baseline ->
  well_placed (ps ++ [baseline]).
Proof.
  intros Hwp Hb k p t Hk Ht.
  pose proof (extends_new_phase ps baseline) as Hext.
  destruct (Nat.lt_ge_cases k (List.length ps)) as [Hlt|Hge].
  - rewrite nth_error_app1 in Hk by assumption.
    destruct (Hwp k p t Hk Ht) as [Hd Hp]. split.
    + intros d H1 H2. eapply produced_upto_extends; eauto.
    + intros op H1. eapply found_before_extends; eauto.
  - rewrite nth_error_app2 in Hk by assumption.
    destruct (k - List.length ps) as [|m]; [|destruct m; discriminate].
    simpl in Hk. inversion Hk. subst p.
    rewrite Forall_forall in Hb. destruct (Hb t Ht) as [Hnodep Hbase].
    split.
    + intros d H1 H2. elim H2. auto.
    + intros op H1. unfold is_nodep in Hnodep.
      apply andb_true_iff in Hnodep. destruct Hnodep as [_ He].
      apply is_empty_true in He. rewrite He in H1. contradiction.
Qed.

(** The invariant of phase assembly, for either form of configuration:
    on a resolvable master task list in which a task that passes the
    no-dependency test depends on [base] only, [load_dep_config] keeps the
    phases well placed. *)
Lemma load_dep_config_well_placed self config task_sets master_task_list
  self' :
  well_placed (phases self) ->
  build_task_sets config [] [] = OK (task_sets, master_task_list) ->
  resolvable master_task_list ->
  seeds_on_base_only master_task_list ->
  load_dep_config self config = OK self' ->
  well_placed (phases self').
Proof.
  intros Hwp Hbuild Hres Hbase H. unfold load_dep_config in H.
  rewrite Hbuild in H. simpl in H.
  destruct (_sort_task_types master_task_list) as [baseline leftovers] eqn:Es.
  apply bind_OK_inv in H. destruct H as [phases1 [Hplace H]].
  apply create_final_col_refs_phases in H. rewrite H. simpl.
  destruct (sort_task_types_taken_out _ Es) as [Htaken [Hnodep Hsub]].
  set (phases0 := if is_empty baseline then phases self
                  else phases self ++ [baseline]) in *.
  assert (Hwp0 : well_placed phases0).
  { unfold phases0. destruct (is_empty baseline); [assumption|].
    apply well_placed_baseline; [assumption|].
    apply Forall_forall. intros t Ht. rewrite Forall_forall in Hnodep.
    split; [auto|]. apply Hbase; auto. }
  assert (Hin0 : forall t, In t baseline -> In t (List.concat phases0)).
  { unfold phases0. intros t Ht. destruct baseline as [|b bs];
      [contradiction|]. cbn [is_empty].
    rewrite concat_app. apply in_or_app. right. simpl.
    now rewrite app_nil_r. }
  eapply phase_creator_well_placed; [exact Hwp0 | | exact Hplace].
  intros done t todo Hsplit.
  destruct (taken_out_split Htaken _ _ _ Hsplit) as [a1 [a2 [Hall Hincl]]].
  eapply resolved_in_incl; [|apply (Hres a1 t a2 Hall)].
  intros u Hu. apply Hincl in Hu. apply in_app_or in Hu. apply in_or_app.
  destruct Hu; [left; auto | now right].
Qed.

Lemma resolvable_from_sound rest : forall before,
  resolvable_from before rest = true ->
  forall done t todo, rest = done ++ t :: todo ->
  resolved_in (before ++ done) t.
Proof.
  induction rest as [|x rest IH]; intros before H done t todo Hsplit.
  - destruct done; discriminate.
  - simpl in H. apply andb_true_iff in H. destruct H as [H Hrest].
    apply andb_true_iff in H. destruct H as [Hd Hp].
    destruct done as [|y done]; simpl in Hsplit; inversion Hsplit; subst.
    + rewrite app_nil_r. split.
      * intros d Hin Hne. rewrite forallb_forall in Hd.
        specialize (Hd d Hin). apply orb_true_iff in Hd.
        destruct Hd as [Hd|Hd]; [apply String.eqb_eq in Hd; contradiction|].
        apply existsb_exists in Hd. destruct Hd as [u [Hu Hid]].
        apply String.eqb_eq in Hid. eauto.
      * intros op Hin. rewrite forallb_forall in Hp.
        specialize (Hp op Hin). apply existsb_exists in Hp.
        destruct Hp as [u [Hu Hid]]. eauto.
    + specialize (@IH (before ++ [y]) Hrest done t todo eq_refl).
      now rewrite <- app_assoc in IH.
Qed.

Lemma resolvable_from_nil master_task_list :
  resolvable_from [] master_task_list = true -> resolvable master_task_list.
Proof.
  intros H before t after Hsplit.
  exact (@resolvable_from_sound master_task_list [] H before t after Hsplit).
Qed.

(** *** Tasks built from an operator-list configuration *)

Lemma compile_chain_short obj : forall prev op dep_grp,
  In (op, dep_grp) (compile_chain prev obj) -> List.length dep_grp <= 1.
Proof.
  induction obj as [|o obj IH]; intros prev op dep_grp H; simpl in H.
  - contradiction.
  - destruct H as [H|H]; [|eauto].
    inversion H. destruct prev; simpl; lia.
Qed.

Lemma compile_dict_short (config : Config) :
  short_deps (_compile_dict_from_list config).
Proof.
  intros stage task_dict cols task_list op dep_grp H1 H2 H3.
  unfold _compile_dict_from_list in H1. apply in_map_iff in H1.
  destruct H1 as [[stage' d] [E1 _]]. inversion E1; subst. clear E1.
  apply in_map_iff in H2. destruct H2 as [[cols' v] [E2 _]].
  inversion E2; subst. clear E2.
  apply in_flat_map in H3. destruct H3 as [e [_ H3]].
  destruct e; unfold compile_entry in H3;
    eapply compile_chain_short; exact H3.
Qed.

Lemma or_base_one dep_grp :
  List.length dep_grp <= 1 -> exists d, or_base dep_grp = [d].
Proof.
  destruct dep_grp as [|d [|d' l]]; simpl; intros H.
  - exists base. reflexivity.
  - exists d. reflexivity.
  - lia.
Qed.

Lemma or_base_short dep_grp :
  List.length dep_grp <= 1 -> List.length (or_base dep_grp) <= 1.
Proof.
  intros H. destruct (or_base_one _ H) as [d ->]. simpl. lia.
Qed.

Lemma build_req_stats_one reqs cols master_task_list :
  forall dep_grp dep_tasks dep_grp' dep_tasks',
  List.length dep_grp <= 1 -> Forall one_dep dep_tasks ->
  build_req_stats reqs cols master_task_list dep_grp dep_tasks
  = (dep_grp', dep_tasks') ->
  List.length dep_grp' <= 1 /\ Forall one_dep dep_tasks'.
Proof.
  induction reqs as [|opo reqs IH];
    intros dep_grp dep_tasks dep_grp' dep_tasks' Hs Hall H; simpl in H.
  - inversion H. subst. auto.
  - destruct (negb (_is_repeat_op opo cols master_task_list)).
    + eapply IH; [| |exact H].
      * now apply or_base_short.
      * apply Forall_app. split; [assumption|]. constructor; [|constructor].
        apply or_base_one. assumption.
    + eapply IH; eauto.
Qed.

Lemma build_target_one cols master_task_list dep_tasks op dep_grp dep_tasks' :
  List.length dep_grp <= 1 -> Forall one_dep dep_tasks ->
  build_target cols master_task_list dep_tasks (op, dep_grp) = OK dep_tasks' ->
  Forall one_dep dep_tasks'.
Proof.
  intros Hs Hall H. unfold build_target in H.
  apply bind_OK_inv in H. destruct H as [[dg tasks] [Hst H]].
  assert (Hdg : List.length dg <= 1 /\ Forall one_dep tasks).
  { destruct (is_df op).
    - destruct (req_stats op) as [reqs|]; [|discriminate].
      inversion Hst as [Hst']. eapply build_req_stats_one; eauto.
    - inversion Hst. subst. auto. }
  destruct Hdg as [Hdg Htasks].
  destruct (negb (_is_repeat_op op cols master_task_list));
    inversion H; subst; [|assumption].
  apply Forall_app. split; [assumption|]. constructor; [|constructor].
  apply or_base_one. assumption.
Qed.

Lemma build_task_list_one cols master_task_list task_list :
  forall dep_tasks dep_tasks',
  (forall op dep_grp, In (op, dep_grp) task_list ->
     List.length dep_grp <= 1) ->
  Forall one_dep dep_tasks ->
  build_task_list cols master_task_list task_list dep_tasks = OK dep_tasks' ->
  Forall one_dep dep_tasks'.
Proof.
  induction task_list as [|[op dep_grp] task_list IH];
    intros dep_tasks dep_tasks' Hs Hall H; simpl in H.
  - inversion H. subst. assumption.
  - apply bind_OK_inv in H. destruct H as [tasks [Ht H]].
    eapply IH; [| |exact H].
    + intros; eapply Hs; right; eauto.
    + eapply build_target_one; [| |exact Ht]; [|assumption].
      eapply Hs. left. reflexivity.
Qed.

Lemma build_task_dict_one master_task_list task_dict :
  forall dep_tasks dep_tasks',
  (forall cols task_list op dep_grp, In (cols, task_list) task_dict ->
     In (op, dep_grp) task_list -> List.length dep_grp <= 1) ->
  Forall one_dep dep_tasks ->
  build_task_dict task_dict master_task_list dep_tasks = OK dep_tasks' ->
  Forall one_dep dep_tasks'.
Proof.
  induction task_dict as [|[cols task_list] task_dict IH];
    intros dep_tasks dep_tasks' Hs Hall H; simpl in H.
  - inversion H. subst. assumption.
  - apply bind_OK_inv in H. destruct H as [tasks [Ht H]].
    eapply IH; [| |exact H].
    + intros; eapply Hs; [right|]; eauto.
    + eapply build_task_list_one; [| |exact Ht]; [|assumption].
      intros; eapply Hs; [left; reflexivity|]; eauto.
Qed.

Lemma build_task_sets_one config :
  forall task_sets master_task_list task_sets' master_task_list',
  short_deps config -> Forall one_dep master_task_list ->
  build_task_sets config task_sets master_task_list
  = OK (task_sets', master_task_list') ->
  Forall one_dep master_task_list'.
Proof.
  induction config as [|[task_set task_dict] config IH];
    intros task_sets master task_sets' master' Hs Hall H; simpl in H.
  - inversion H. subst. assumption.
  - apply bind_OK_inv in H. destruct H as [tasks [Ht H]].
    eapply IH; [| |exact H].
    + intros stage d cols l op dg H1. eapply Hs. right. exact H1.
    + apply Forall_app. split; [assumption|].
      unfold _build_tasks in Ht.
      eapply build_task_dict_one; [| |exact Ht]; [|constructor].
      intros cols l op dg H1. eapply Hs; [left; reflexivity|exact H1].
Qed.

(** In the master task list of an operator-list configuration each task
    has one dependency entry, so a task that depends on [base] depends on
    nothing else. *)
Lemma compiled_seeds_on_base_only (cfg : Config) master_task_list :
  master_of (_compile_dict_from_list cfg) = OK master_task_list ->
  seeds_on_base_only master_task_list.
Proof.
  intros Hmaster t Ht Hnodep d Hd. unfold master_of in Hmaster.
  apply bind_OK_inv in Hmaster.
  destruct Hmaster as [[task_sets master] [Hbuild Hm]].
  simpl in Hm. inversion Hm. subst master.
  pose proof (build_task_sets_one _ (compile_dict_short cfg)
                (Forall_nil _) Hbuild) as Hone.
  rewrite Forall_forall in Hone. destruct (Hone t Ht) as [d0 Hd0].
  unfold is_nodep in Hnodep. apply andb_true_iff in Hnodep.
  destruct Hnodep as [Hb _]. apply py_in_true in Hb.
  rewrite Hd0 in Hb, Hd. destruct Hb as [<-|[]]. destruct Hd as [<-|[]].
  reflexivity.
Qed.

(** *** Placement by identifier *)

Lemma resolved_by_identifier_resolved pool t :
  resolved_by_identifier_in pool t -> resolved_in pool t.
Proof.
  intros [Hd Hp]. split; [exact Hd|].
  intros op Hop. destruct (Hp op Hop) as [u [Hu Hid]]. exists u.
  split; [assumption|]. rewrite Hid. apply str_in_refl.
Qed.

Lemma resolvable_by_identifier_resolvable master_task_list :
  resolvable_by_identifier master_task_list -> resolvable master_task_list.
Proof.
  intros H before t after Hsplit.
  apply resolved_by_identifier_resolved. eapply H; eauto.
Qed.

Lemma placed_by_identifier_well_placed (ps : list Phase) :
  placed_by_identifier ps -> well_placed ps.
Proof.
  intros H k p t Hk Ht. destruct (H k p t Hk Ht) as [Hd Hp].
  split; [exact Hd|]. intros op Hop.
  destruct (Hp op Hop) as [j [q [u [Hj [Hq [Hu Hid]]]]]].
  exists j, q, u. repeat split; auto. rewrite Hid. apply str_in_refl.
Qed.

Lemma resolvable_by_identifier_from_sound rest : forall before,
  resolvable_by_identifier_from before rest = true ->
  forall done t todo, rest = done ++ t :: todo ->
  resolved_by_identifier_in (before ++ done) t.
Proof.
  induction rest as [|x rest IH]; intros before H done t todo Hsplit.
  - destruct done; discriminate.
  - simpl in H. apply andb_true_iff in H. destruct H as [H Hrest].
    apply andb_true_iff in H. destruct H as [Hd Hp].
    destruct done as [|y done]; simpl in Hsplit; inversion Hsplit; subst.
    + rewrite app_nil_r. split.
      * intros d Hin Hne. rewrite forallb_forall in Hd.
        specialize (Hd d Hin). apply orb_true_iff in Hd.
        destruct Hd as [Hd|Hd]; [apply String.eqb_eq in Hd; contradiction|].
        apply existsb_exists in Hd. destruct Hd as [u [Hu Hid]].
        apply String.eqb_eq in Hid. eauto.
      * intros op Hin. rewrite forallb_forall in Hp.
        specialize (Hp op Hin). apply existsb_exists in Hp.
        destruct Hp as [u [Hu Hid]]. apply String.eqb_eq in Hid. eauto.
    + specialize (@IH (before ++ [y]) Hrest done t todo eq_refl).
      now rewrite <- app_assoc in IH.
Qed.

Lemma resolvable_by_identifier_from_nil master_task_list :
  resolvable_by_identifier_from [] master_task_list = true ->
  resolvable_by_identifier master_task_list.
Proof.
  intros H before t after Hsplit.
  exact (@resolvable_by_identifier_from_sound master_task_list [] H
           before t after Hsplit).
Qed.

Lemma resolvable_by_identifier_deps master_task_list :
  resolvable_by_identifier master_task_list ->
  deps_resolvable master_task_list.
Proof.
  intros H before t after Hsplit. exact (proj1 (H before t after Hsplit)).
Qed.

Lemma seeds_on_base_only_b_sound master_task_list :
  seeds_on_base_only_b master_task_list = true ->
  seeds_on_base_only master_task_list.
Proof.
  unfold seeds_on_base_only_b. intros H t Ht Hnodep d Hd.
  rewrite forallb_forall in H. specialize (H t Ht). rewrite Hnodep in H.
  simpl in H. rewrite forallb_forall in H. specialize (H d Hd).
  now apply String.eqb_eq in H.
Qed.

(** The placement of a workflow that has loaded a configuration, with the
    required parents taken by their identifier. *)
Lemma load_dep_config_placed_by_identifier self config master_task_list
  self' :
  placed_by_identifier (phases self) ->
  master_of config = OK master_task_list ->
  resolvable_by_identifier master_task_list ->
  seeds_on_base_only master_task_list ->
  load_dep_config self config = OK self' ->
  forall k p t,
    nth_error (phases self') k = Some p -> In t p ->
    deps_met (phases self') k t
    /\ (forall op, In op (task_parents t) -> unshadowed (phases self') op ->
          produced_before (phases self') k (_id op)).
Proof.
  intros Hwp Hmaster Hres Hseeds Hload k p t Hk Ht.
  unfold master_of in Hmaster. apply bind_OK_inv in Hmaster.
  destruct Hmaster as [[task_sets master] [Hbuild Hm]].
  simpl in Hm. inversion Hm. subst master.
  assert (Hwp' : well_placed (phases self')).
  { eapply load_dep_config_well_placed; eauto.
    - now apply placed_by_identifier_well_placed.
    - now apply resolvable_by_identifier_resolvable. }
  destruct (Hwp' k p t Hk Ht) as [Hd Hp]. split; [exact Hd|].
  intros op Hop Hun.
  destruct (Hp op Hop) as [j [q [u [Hj [Hq [Hu Hin]]]]]].
  exists j, q, u. repeat split; auto.
  apply Hun; [|assumption]. apply in_concat_nth. eauto.
Qed.

(** *** Dependencies alone *)

Lemma deps_resolved_in_incl pool pool' t :
  incl pool pool' -> deps_resolved_in pool t -> deps_resolved_in pool' t.
Proof.
  intros Hincl Hd d H1 H2. destruct (Hd d H1 H2) as [u [Hu Hid]].
  exists u. auto.
Qed.

Lemma deps_not_later_extends (ps ps' : list Phase) k p t :
  deps_not_later ps -> extends ps ps' ->
  nth_error ps k = Some p -> In t p ->
  forall d, In d (task_deps t) -> d = base \/ produced_upto ps' k d.
Proof.
  intros Hdl Hext Hk Ht d Hd.
  destruct (Hdl k p t d Hk Ht Hd) as [Hb|Hprod]; [now left|].
  right. eapply produced_upto_extends; eauto.
Qed.

(** One step of [_phase_creator], for the dependencies: whether the
    required parents of the task are found or not, the task lands in a phase
    that is not before those of its dependencies. *)
Lemma place_task_deps_not_later (ps : list Phase) task ps' :
  deps_not_later ps ->
  deps_resolved_in (List.concat ps) task ->
  place_task ps task = OK ps' ->
  deps_not_later ps' /\ extends ps ps' /\ In task (List.concat ps').
Proof.
  intros Hdl Hdeps H. unfold place_task in H.
  apply bind_OK_inv in H. destruct H as [added [Hscan H]].
  destruct added as [idx|]; inversion H; subst ps'; clear H.
  - apply scan_phases_joined in Hscan; [|intros i; reflexivity].
    destruct Hscan as [_ [Hlt [Hcols _]]]. simpl in Hlt.
    pose proof (extends_append_to_phase ps idx task) as Hext.
    assert (Hidx : exists p, nth_error ps idx = Some p).
    { destruct (nth_error ps idx) eqn:E; [eauto|].
      apply nth_error_None in E. lia. }
    destruct Hidx as [pidx Hpidx].
    split; [|split; [assumption|]].
    + intros k p t d Hk Ht Hd.
      rewrite append_to_phase_nth in Hk.
      destruct (Nat.eqb k idx) eqn:Ek.
      * apply Nat.eqb_eq in Ek. subst k. rewrite Hpidx in Hk.
        simpl in Hk. inversion Hk. subst p.
        apply in_app_or in Ht. destruct Ht as [Ht|[<-|[]]].
        -- eapply deps_not_later_extends; eauto.
        -- destruct (string_dec d base) as [->|Hne]; [now left|]. right.
           eapply produced_upto_extends; [exact Hext|].
           apply Hcols.
           destruct (py_in string_dec base (task_deps task));
             [apply remove_first_other|]; assumption.
      * eapply deps_not_later_extends; eauto.
    + apply in_concat_nth. exists idx, (pidx ++ [task]). split.
      * rewrite append_to_phase_nth, Nat.eqb_refl, Hpidx. reflexivity.
      * apply in_or_app. right. now left.
  - pose proof (extends_new_phase ps [task]) as Hext.
    split; [|split; [assumption|]].
    + intros k p t d Hk Ht Hd.
      destruct (Nat.lt_ge_cases k (List.length ps)) as [Hlt|Hge].
      * rewrite nth_error_app1 in Hk by assumption.
        eapply deps_not_later_extends; eauto.
      * rewrite nth_error_app2 in Hk by assumption.
        destruct (k - List.length ps) as [|m] eqn:Ekm;
          [|destruct m; discriminate].
        simpl in Hk. inversion Hk. subst p.
        destruct Ht as [<-|[]].
        assert (k = List.length ps) by lia. subst k.
        destruct (string_dec d base) as [->|Hne]; [now left|]. right.
        destruct (Hdeps d Hd Hne) as [u [Hu Hid]].
        apply in_concat_nth in Hu. destruct Hu as [j [q [Hq Hin]]].
        eapply produced_upto_extends; [exact Hext|].
        exists j, q, u. split; [|auto].
        assert (j < List.length ps)
          by (apply nth_error_Some; congruence). lia.
    + rewrite concat_app. apply in_or_app. right. simpl. now left.
Qed.

Lemma phase_creator_deps_not_later (task_list : list Task) :
  forall ps ps' : list Phase,
  deps_not_later ps ->
  (forall done t todo, task_list = done ++ t :: todo ->
     deps_resolved_in (List.concat ps ++ done) t) ->
  _phase_creator ps task_list = OK ps' ->
  deps_not_later ps'.
Proof.
  induction task_list as [|task rest IH]; intros ps ps' Hdl Hres H;
    simpl in H.
  - inversion H. subst. assumption.
  - apply bind_OK_inv in H. destruct H as [ps1 [Hplace H]].
    destruct (@place_task_deps_not_later ps task ps1 Hdl)
      as [Hdl1 [Hext Hin]]; [|assumption|].
    { specialize (Hres [] task rest eq_refl).
      now rewrite app_nil_r in Hres. }
    apply (IH ps1 ps' Hdl1); [|assumption].
    intros done t todo Hsplit.
    eapply deps_resolved_in_incl; [|apply (Hres (task :: done) t todo)].
    + intros u Hu. apply in_app_or in Hu. apply in_or_app.
      destruct Hu as [Hu|[<-|Hu]].
      * left. eapply extends_concat; eauto.
      * left. assumption.
      * now right.
    + rewrite Hsplit. reflexivity.
Qed.

Lemma deps_not_later_baseline (ps : list Phase) baseline :
  deps_not_later ps ->
  Forall (fun t => forall d, In d (task_deps t) -> d = base) baseline ->
  deps_not_later (ps ++ [baseline]).
Proof.
  intros Hdl Hb k p t d Hk Ht Hd.
  pose proof (extends_new_phase ps baseline) as Hext.
  destruct (Nat.lt_ge_cases k (List.length ps)) as [Hlt|Hge].
  - rewrite nth_error_app1 in Hk by assumption.
    eapply deps_not_later_extends; eauto.
  - rewrite nth_error_app2 in Hk by assumption.
    destruct (k - List.length ps) as [|m]; [|destruct m; discriminate].
    simpl in Hk. inversion Hk. subst p.
    rewrite Forall_forall in Hb. left. exact (Hb t Ht d Hd).
Qed.

(** The invariant of phase assembly for the dependencies, for either form
    of configuration. *)
Lemma load_dep_config_deps_not_later self config master_task_list self' :
  deps_not_later (phases self) ->
  master_of config = OK master_task_list ->
  deps_resolvable master_task_list ->
  seeds_on_base_only master_task_list ->
  load_dep_config self config = OK self' ->
  deps_not_later (phases self').
Proof.
  intros Hdl Hmaster Hres Hseeds H.
  unfold master_of in Hmaster. apply bind_OK_inv in Hmaster.
  destruct Hmaster as [[task_sets master] [Hbuild Hm]].
  simpl in Hm. inversion Hm. subst master.
  unfold load_dep_config in H. rewrite Hbuild in H. simpl in H.
  destruct (_sort_task_types master_task_list) as [baseline leftovers] eqn:Es.
  apply bind_OK_inv in H. destruct H as [phases1 [Hplace H]].
  apply create_final_col_refs_phases in H. rewrite H. simpl.
  destruct (sort_task_types_taken_out _ Es) as [Htaken [Hnodep Hsub]].
  set (phases0 := if is_empty baseline then phases self
                  else phases self ++ [baseline]) in *.
  assert (Hdl0 : deps_not_later phases0).
  { unfold phases0. destruct (is_empty baseline); [assumption|].
    apply deps_not_later_baseline; [assumption|].
    apply Forall_forall. intros t Ht. rewrite Forall_forall in Hnodep.
    apply Hseeds; auto. }
  assert (Hin0 : forall t, In t baseline -> In t (List.concat phases0)).
  { unfold phases0. intros t Ht. destruct baseline as [|b bs];
      [contradiction|]. cbn [is_empty].
    rewrite concat_app. apply in_or_app. right. simpl.
    now rewrite app_nil_r. }
  eapply phase_creator_deps_not_later; [exact Hdl0 | | exact Hplace].
  intros done t todo Hsplit.
  destruct (taken_out_split Htaken _ _ _ Hsplit) as [a1 [a2 [Hall Hincl]]].
  eapply deps_resolved_in_incl; [|apply (Hres a1 t a2 Hall)].
  intros u Hu. apply Hincl in Hu. apply in_app_or in Hu. apply in_or_app.
  destruct Hu; [left; auto | now right].
Qed.

Lemma loads_load_dep_config self config self' :
  loads self config self' -> load_dep_config self config = OK self'.
Proof.
  intros [[cfg [-> H]] | H]; exact H.
Qed.

Lemma placed_by_identifier_nil : placed_by_identifier [].
Proof. intros k p t H. destruct k; discriminate. Qed.

Lemma deps_not_later_nil : deps_not_later [].
Proof. intros k p t d H. destruct k; discriminate. Qed.

(** *** The placement invariant *)

(** C1 (as amended). Take a workflow whose phases already satisfy the
    property (none yet, for a fresh workflow) and a configuration, in either
    form, such that each task of its master task list finds, among the
    tasks before it in the list, a task with the identifier of each of its
    dependencies other than [base] and of each of its required parents, and
    such that a task with [base] among its dependencies and no required
    parent has no other dependency (as is the case for every operator-list
    configuration).  If [load_config] returns, then for every task of every
    phase [k]: each dependency other than [base] is the identifier of a task
    of a phase of index at most [k]; and each required parent whose
    identifier is not contained in a different identifier of a placed task
    is, by its identifier, the operator of a task of a phase of index less
    than [k]. *)
Theorem tasks_placed_after_what_they_need
  (self : Workflow) (config : DepConfig) (master_task_list : list Task)
  (self' : Workflow) :
  placed_by_identifier (phases self) ->
  master_of config = OK master_task_list ->
  resolvable_by_identifier master_task_list ->
  seeds_on_base_only master_task_list ->
  loads self config self' ->
  forall k p t,
    nth_error (phases self') k = Some p -> In t p ->
    (forall d, In d (task_deps t) -> d <> base ->
       exists j q u,
         j <= k /\ nth_error (phases self') j = Some q /\ In u q
         /\ _id (task_op u) = d)
    /\ (forall op, In op (task_parents t) -> unshadowed (phases self') op ->
          exists j q u,
            j < k /\ nth_error (phases self') j = Some q /\ In u q
            /\ _id (task_op u) = _id op).
Proof.
  intros Hwp Hmaster Hres Hseeds Hload k p t Hk Ht.
  apply loads_load_dep_config in Hload.
  exact (@load_dep_config_placed_by_identifier self config master_task_list
           self' Hwp Hmaster Hres Hseeds Hload k p t Hk Ht).
Qed.

Lemma tasks_placed_after_what_they_need_witness :
  exists self',
    load_config sample_workflow chain_and_stat_config = OK self'
    /\ phases self' =
       [ [ mkTask opLogOp "continuous" [base] [];
           mkTask opMoments "continuous" [base] [];
           mkTask opFillMissing "continuous" ["LogOp"] [] ];
         [ mkTask opZScore "continuous" [base] [opMoments] ] ]
    /\ forall k p t,
         nth_error (phases self') k = Some p -> In t p ->
         (forall d, In d (task_deps t) -> d <> base ->
            exists j q u,
              j <= k /\ nth_error (phases self') j = Some q /\ In u q
              /\ _id (task_op u) = d)
         /\ (forall op, In op (task_parents t) ->
               unshadowed (phases self') op ->
               exists j q u,
                 j < k /\ nth_error (phases self') j = Some q /\ In u q
                 /\ _id (task_op u) = _id op).
Proof.
  eexists. split; [reflexivity|]. split; [reflexivity|].
  apply (@tasks_placed_after_what_they_need sample_workflow
           (_compile_dict_from_list chain_and_stat_config)
           [ mkTask opLogOp "continuous" [base] [];
             mkTask opFillMissing "continuous" ["LogOp"] [];
             mkTask opMoments "continuous" [base] [];
             mkTask opZScore "continuous" [base] [opMoments] ]).
  - apply placed_by_identifier_nil.
  - reflexivity.
  - apply resolvable_by_identifier_from_nil. reflexivity.
  - apply seeds_on_base_only_b_sound. reflexivity.
  - left. exists chain_and_stat_config. split; reflexivity.
Defined.

(** The claim C1 as it stands fails on dependency dictionaries.  With a
    dependency that no operator produces, the task opens a new last phase
    all the same.  With a task that depends on [base] and on the output of
    another operator and requires no parent, the task goes to the seed
    phase, before the phase of the operator it depends on. *)
Lemma unresolved_dependency_still_placed :
  (exists ps,
     phases_of (load_config_pro sample_workflow dangling_config) = Some ps
     /\ ps = [[mkTask opLogOp "continuous" ["Ghost"] []]]
     /\ ~ placed_by_identifier ps)
  /\ (exists ps,
        phases_of (load_config_pro sample_workflow base_and_more_config)
        = Some ps
        /\ ps = [ [ mkTask opMoments "continuous" [base] [];
                    mkTask opLogOp "continuous" [base; "ZScore"] [] ];
                  [ mkTask opZScore "continuous" [base] [opMoments] ] ]
        /\ ~ placed_by_identifier ps).
Proof.
  split.
  - eexists. split; [reflexivity|]. split; [reflexivity|]. intros Hwp.
    destruct (Hwp 0 _ (mkTask opLogOp "continuous" ["Ghost"] []) eq_refl
                (or_introl eq_refl)) as [Hd _].
    destruct (Hd "Ghost" (or_introl eq_refl)) as [j [q [u [Hj [Hq [Hu Hid]]]]]];
      [discriminate|].
    destruct j as [|j]; [|destruct j; discriminate].
    inversion Hq. subst q. destruct Hu as [<-|[]]. discriminate.
  - eexists. split; [reflexivity|]. split; [reflexivity|]. intros Hwp.
    destruct (Hwp 0 _ (mkTask opLogOp "continuous" [base; "ZScore"] [])
                eq_refl (or_intror (or_introl eq_refl))) as [Hd _].
    destruct (Hd "ZScore" (or_intror (or_introl eq_refl)))
      as [j [q [u [Hj [Hq [Hu Hid]]]]]]; [discriminate|].
    destruct j as [|j]; [|lia].
    inversion Hq. subst q. destruct Hu as [<-|[<-|[]]]; discriminate.
Qed.

(** C2 (as amended). Take a workflow whose phases already satisfy the
    property (none yet, for a fresh workflow) and a configuration, in either
    form, such that each task of its master task list finds, among the
    tasks before it in the list, a task with the identifier of each of its
    dependencies other than [base], and such that a task with [base] among
    its dependencies and no required parent has no other dependency.  If
    [load_config] returns, every dependency entry of every task is [base] or
    the identifier of a task of the same or an earlier phase. *)
Theorem dependencies_not_in_a_later_phase
  (self : Workflow) (config : DepConfig) (master_task_list : list Task)
  (self' : Workflow) :
  deps_not_later (phases self) ->
  master_of config = OK master_task_list ->
  deps_resolvable master_task_list ->
  seeds_on_base_only master_task_list ->
  loads self config self' ->
  deps_not_later (phases self').
Proof.
  intros Hdl Hmaster Hres Hseeds Hload.
  apply loads_load_dep_config in Hload.
  exact (@load_dep_config_deps_not_later self config master_task_list self'
           Hdl Hmaster Hres Hseeds Hload).
Qed.

Lemma dependencies_not_in_a_later_phase_witness :
  exists self',
    load_config sample_workflow chain_config = OK self'
    /\ phases self' =
       [ [ mkTask opLogOp "continuous" [base] [];
           mkTask opFillMissing "continuous" ["LogOp"] [] ] ]
    /\ deps_not_later (phases self').
Proof.
  eexists. split; [reflexivity|]. split; [reflexivity|].
  apply (@dependencies_not_in_a_later_phase sample_workflow
           (_compile_dict_from_list chain_config)
           [ mkTask opLogOp "continuous" [base] [];
             mkTask opFillMissing "continuous" ["LogOp"] [] ]).
  - apply deps_not_later_nil.
  - reflexivity.
  - apply resolvable_by_identifier_deps.
    apply resolvable_by_identifier_from_nil. reflexivity.
  - apply seeds_on_base_only_b_sound. reflexivity.
  - left. exists chain_config. split; reflexivity.
Defined.

(** The claim C2 as it stands fails on a chain of two transforms: both
    tasks are in phase 0, and the second depends on the first.  Allowing
    the same phase is not enough for a dependency dictionary with a
    dependency that no operator produces, or with a task that depends on
    [base] and on the output of an operator placed later. *)
Lemma chain_shares_a_phase :
  (exists ps,
     phases_of (load_config sample_workflow chain_config) = Some ps
     /\ ps = [ [ mkTask opLogOp "continuous" [base] [];
                 mkTask opFillMissing "continuous" ["LogOp"] [] ] ]
     /\ ~ deps_strictly_earlier ps)
  /\ (exists ps,
        phases_of (load_config_pro sample_workflow dangling_config) = Some ps
        /\ ~ deps_not_later ps)
  /\ (exists ps,
        phases_of (load_config_pro sample_workflow base_and_more_config)
        = Some ps
        /\ ~ deps_not_later ps).
Proof.
  split; [|split].
  - eexists. split; [reflexivity|]. split; [reflexivity|]. intros H.
    destruct (H 0 _ (mkTask opFillMissing "continuous" ["LogOp"] []) "LogOp"
                eq_refl (or_intror (or_introl eq_refl)) (or_introl eq_refl))
      as [Hb | [j [q [u [Hj _]]]]].
    + discriminate.
    + lia.
  - eexists. split; [reflexivity|]. intros H.
    destruct (H 0 _ (mkTask opLogOp "continuous" ["Ghost"] []) "Ghost"
                eq_refl (or_introl eq_refl) (or_introl eq_refl))
      as [Hb | [j [q [u [Hj [Hq [Hu Hid]]]]]]].
    + discriminate.
    + destruct j as [|j]; [|destruct j; discriminate].
      inversion Hq. subst q. destruct Hu as [<-|[]]. discriminate.
  - eexists. split; [reflexivity|]. intros H.
    destruct (H 0 _ (mkTask opLogOp "continuous" [base; "ZScore"] [])
                "ZScore" eq_refl (or_intror (or_introl eq_refl))
                (or_intror (or_introl eq_refl)))
      as [Hb | [j [q [u [Hj [Hq [Hu Hid]]]]]]].
    + discriminate.
    + destruct j as [|j]; [|lia].
      inversion Hq. subst q. destruct Hu as [<-|[<-|[]]]; discriminate.
Qed.

(** What the two amended statements leave out: an operator whose
    identifier occurs inside the identifier of another one.  The head of a
    chain that is taken for a repeat is dropped, and the next operator of
    the chain is placed with a dependency that no task produces; a required
    statistic that is taken for a repeat gets no task, and the transform is
    placed after the operator that shadows it. *)
Example shadowed_operators_are_not_placed :
  phases_of (load_config sample_workflow shadowed_chain_config)
  = Some [ [mkTask opNormalizeMinMax "continuous" [base] []];
           [mkTask opLogOp "continuous" ["Normalize"] []] ]
  /\ phases_of (load_config sample_workflow shadowed_parent_config)
     = Some [ [mkTask opMomentsByGroup "continuous" [base] []];
              [mkTask opZScore "continuous" [base] [opMoments]] ].
Proof. split; reflexivity. Qed.

(** ** More on the seed phase *)










(** ** More on [_find_parents] *)









(** ** More on greedy placement *)
















(** ** Phase assembly as a whole *)














(** ** The required statistics of a built master list *)

Lemma parents_in_incl pool pool' t :
  incl pool pool' -> parents_in pool t -> parents_in pool' t.
Proof.
  intros Hi H op Hop. destruct (H op Hop) as [u [Hu Hm]]. exists u. auto.
Qed.










(** ** Column names *)




(** ** More on reordering *)








(** ** Executing a phase *)

















Example graph_exec_calls_default :
  graph_exec_calls 3 None = [(0, false); (1, false); (2, true)].
Proof. reflexivity. Qed.

Example graph_exec_calls_beyond :
  graph_exec_calls 3 (Some 5%Z) = [(0, false); (1, false); (2, false)].
Proof. reflexivity. Qed.

Example graph_exec_calls_negative :
  graph_exec_calls 3 (Some (-1)%Z) = [(0, false); (1, false)].
Proof. reflexivity. Qed.

Section ExecutorBounds.
Variable DataFrame : Type.
Variable Dtypes : Type.
Variable apply_op :
  Operator -> DataFrame -> ColumnsCtx -> string -> list string ->
  option (dict StatValue) -> DataFrame * ColumnsCtx.
Variable _set_dtypes : DataFrame -> option Dtypes -> DataFrame.



End ExecutorBounds.


(* ================================================================== *)
(** ** The final column references *)













(* ================================================================== *)
(** ** Operator-list API: checked additions and pre-processing *)


















